(** * codingbat.py: the declaration translator, the assertion builder,
      the docstring wrapper and the file writer

    A shallow embedding of [src/codingbat.py].  Python strings are sequences
    of Unicode code points, exceptions are an error monad, regular expressions
    are interpreted by a small backtracking matcher for the fragment of [re]
    the program uses, and the stateful parts ([Problem.process],
    [CategoryPage.write]) pass their state explicitly. *)

From Stdlib Require Import NArith Ascii String List Bool Arith Lia.
From stdpp Require Import base option list gmap.
From Equations Require Import Equations.
Import ListNotations.

Set Default Proof Using "Type*".

#[local] Open Scope nat_scope.
#[local] Open Scope list_scope.

(** ** Python strings *)

(** A [str] is a list of code points. *)
Abbreviation char := N (only parsing).
Abbreviation str := (list N) (only parsing).

(** [py "abc"] is the Python literal ['abc'] (ASCII literals only). *)
Definition py (s : string) : str := map N_of_ascii (list_ascii_of_string s).

Definition NL : N := 10.
Definition SPACE : N := 32.
Definition QUOTE : N := 34.
Definition LPAREN : N := 40.
Definition RPAREN : N := 41.
Definition COMMA : N := 44.
Definition LT : N := 60.
Definition GT : N := 62.
Definition UNDERSCORE : N := 95.
(** U+2192, the arrow of the examples. *)
Definition ARROW : N := 8594.

Fixpoint str_eqb (a b : str) : bool :=
  match a, b with
  | [], [] => true
  | x :: a', y :: b' => N.eqb x y && str_eqb a' b'
  | _, _ => false
  end.

(** [s.startswith(p)] *)
Fixpoint startswith (s p : str) {struct p} : bool :=
  match p, s with
  | [], _ => true
  | x :: p', y :: s' => N.eqb x y && startswith s' p'
  | _ :: _, [] => false
  end.

(** [s.endswith(p)] *)
Definition endswith (s p : str) : bool := startswith (rev s) (rev p).

(** [s[a:b]] for indices [0 <= a], [0 <= b]; Python clamps both to [len(s)]
    and gives [''] when [b <= a]. *)
Definition slice (s : str) (a b : nat) : str := firstn (b - a) (skipn a s).

(** [s[:-k]] *)
Definition drop_last (s : str) (k : nat) : str := firstn (length s - k) s.

(** [sep.join(l)] *)
Fixpoint join (sep : str) (l : list str) : str :=
  match l with
  | [] => []
  | [x] => x
  | x :: l' => x ++ sep ++ join sep l'
  end.

(** [p in s], the substring test. *)
Fixpoint contains (s p : str) : bool :=
  startswith s p ||
  match s with
  | [] => false
  | _ :: s' => contains s' p
  end.

(** The characters [str.strip()] removes: [str.isspace]. *)
Definition isspace (c : N) : bool :=
  ((9 <=? c) && (c <=? 13) || (28 <=? c) && (c <=? 32) ||
   (c =? 133) || (c =? 160) || (c =? 5760) ||
   (8192 <=? c) && (c <=? 8202) || (c =? 8232) || (c =? 8233) ||
   (c =? 8239) || (c =? 8287) || (c =? 12288))%N.

Fixpoint lstrip (s : str) : str :=
  match s with
  | c :: s' => if isspace c then lstrip s' else s
  | [] => []
  end.

(** [s.strip()] *)
Definition strip (s : str) : str := rev (lstrip (rev (lstrip s))).

(** [s.split(sep)] for a non-empty [sep]: the separators are found left to
    right and do not overlap.  [skip] counts the characters of a separator
    still to be passed over, [cur] is the piece being read, reversed. *)
Fixpoint split_go (sep s : str) (skip : nat) (cur : str) : list str :=
  match s with
  | [] => [rev cur]
  | c :: s' =>
      match skip with
      | S k => split_go sep s' k cur
      | 0 =>
          if startswith s sep
          then rev cur :: split_go sep s' (length sep - 1) []
          else split_go sep s' 0 (c :: cur)
      end
  end.

Definition split (s sep : str) : list str := split_go sep s 0 [].

(** ** Exceptions *)

Inductive exn : Type :=
| ValueError
| AttributeError
| TypeError
| IndexError
| KeyError
| OSError
| UnicodeEncodeError
| BuiltinError (name : str)
| ProcessingError (msg : str).

Inductive exc (A : Type) : Type :=
| Ok (a : A)
| Raise (e : exn).
Arguments Ok {A} a.
Arguments Raise {A} e.

Definition ebind {A B} (m : exc A) (k : A -> exc B) : exc B :=
  match m with
  | Ok a => k a
  | Raise e => Raise e
  end.

Notation "'let*' x ':=' m 'in' k" := (ebind m (fun x => k))
  (at level 10, x pattern, m at level 100, k at level 200).

(** [s.index(p)]: the first position where [p] occurs, [ValueError] if none. *)
Fixpoint find_from (s p : str) (pos : nat) : exc nat :=
  if startswith s p then Ok pos
  else match s with
       | [] => Raise ValueError
       | _ :: s' => find_from s' p (S pos)
       end.

Definition index (s p : str) : exc nat := find_from s p 0.

(** ** Regular expressions

    The fragment of Python's [re] the program uses: literal characters,
    character classes, the greedy [+] of a class, concatenation (with the
    empty pattern as its unit), alternation, capturing groups (never nested in
    the program) and [$]. *)

Inductive regex : Type :=
| REps
| RChar (c : N)
| RClass (p : N -> bool)
| RPlus (p : N -> bool)
| RSeq (a b : regex)
| RAlt (a b : regex)
| RGroup (a : regex)
| REnd.

(** A literal text, one character after the other. *)
Fixpoint RStr (l : str) : regex :=
  match l with
  | [] => REps
  | c :: l' => RSeq (RChar c) (RStr l')
  end.

(** The text a match has consumed, when [t] is what remains of [s]. *)
Definition consumed (s t : str) : str := firstn (length s - length t) s.

(** Greedy [p+] on [s]: the texts that can remain, the longest match first. *)
Fixpoint plus_class (p : N -> bool) (s : str) : list str :=
  match s with
  | c :: s' => if p c then plus_class p s' ++ [s'] else []
  | [] => []
  end.

(** [rmatch r s g]: the ways [r] matches at the start of [s], in the order
    the backtracking matcher tries them; each is the groups captured so far
    ([g] extended) and the text that remains. *)
Fixpoint rmatch (r : regex) (s : str) (g : list str) : list (list str * str) :=
  match r with
  | REps => [(g, s)]
  | RChar c =>
      match s with
      | d :: s' => if N.eqb c d then [(g, s')] else []
      | [] => []
      end
  | RClass p =>
      match s with
      | d :: s' => if p d then [(g, s')] else []
      | [] => []
      end
  | RPlus p => map (fun t => (g, t)) (plus_class p s)
  | RSeq a b => flat_map (fun m => rmatch b (snd m) (fst m)) (rmatch a s g)
  | RAlt a b => rmatch a s g ++ rmatch b s g
  | RGroup a => map (fun m => (fst m ++ [consumed s (snd m)], snd m)) (rmatch a s g)
  | REnd =>
      match s with
      | [] => [(g, s)]
      | [c] => if N.eqb c NL then [(g, s)] else []
      | _ => []
      end
  end.

(** A match object: [m.start()], [m[0]] and [m.groups()]. *)
Record Match : Type := { m_start : nat; m_text : str; m_groups : list str }.

(** [re.search(r, s)]: the first position, from the left, where [r] matches;
    [None] when there is none. *)
Fixpoint search_from (r : regex) (s : str) (pos : nat) : option Match :=
  match rmatch r s [] with
  | (g, t) :: _ => Some {| m_start := pos; m_text := consumed s t; m_groups := g |}
  | [] =>
      match s with
      | [] => None
      | _ :: s' => search_from r s' (S pos)
      end
  end.

Definition re_search (r : regex) (s : str) : option Match := search_from r s 0.

(** [re.sub(r, repl, s)] with a function [repl] of the matched text: the
    matches are found left to right and do not overlap.  [skip] counts the
    characters of the current match still to be passed over.  An empty match
    is replaced and the scan moves on by one character. *)
Fixpoint sub_go (r : regex) (repl : str -> exc str) (s : str) (skip : nat) : exc str :=
  match skip with
  | S k =>
      match s with
      | [] => Ok []
      | _ :: s' => sub_go r repl s' k
      end
  | 0 =>
      match rmatch r s [] with
      | (_, t) :: _ =>
          let* x := repl (consumed s t) in
          match s with
          | [] => Ok x
          | c :: s' =>
              match length s - length t with
              | 0 => let* rest := sub_go r repl s' 0 in Ok (x ++ c :: rest)
              | S k => let* rest := sub_go r repl s' k in Ok (x ++ rest)
              end
          end
      | [] =>
          match s with
          | [] => Ok []
          | c :: s' => let* rest := sub_go r repl s' 0 in Ok (c :: rest)
          end
      end
  end.

Definition re_sub (r : regex) (repl : str -> exc str) (s : str) : exc str :=
  sub_go r repl s 0.

(** [.]: any character but a newline. *)
Definition dot (c : N) : bool := negb (N.eqb c NL).

Definition ascii_alnum (c : N) : bool :=
  ((48 <=? c) && (c <=? 57) || (65 <=? c) && (c <=? 90) ||
   (97 <=? c) && (c <=? 122))%N.

(** ** Converter *)

(** The dict [general_conversion] of [Converter.type_conversion]. *)
Definition general_conversion : gmap (list N) (list N) :=
  list_to_map
    [ (py "String", py "str");
      (py "Integer", py "int");
      (py "Map", py "Dict");
      (py "boolean", py "bool");
      (py "Boolean", py "bool") ].

(** [general_conversion[i] if i in general_conversion else i] *)
Definition convert_name (i : str) : str :=
  match general_conversion !! i with
  | Some v => v
  | None => i
  end.

(** [vartype[vartype.index('<') + 1:vartype.index('>')]] *)
Definition bracketed (vartype : str) : exc str :=
  let* lt := index vartype [LT] in
  let* gt := index vartype [GT] in
  Ok (slice vartype (lt + 1) gt).

(** [Converter.type_conversion] *)
Definition type_conversion (vartype : str) : exc str :=
  if startswith vartype (py "Map") then
    let* inner := bracketed vartype in
    let attrs := split inner (py ", ") in
    let attrs := join (py ", ") (map convert_name attrs) in
    Ok (py "Dict[" ++ attrs ++ py "]")
  else if startswith vartype (py "List") then
    match bracketed vartype with
    | Raise ValueError => Ok (py "list")
    | Raise e => Raise e
    | Ok attr => Ok (py "List[" ++ convert_name attr ++ py "]")
    end
  else if endswith vartype (py "[]") then
    Ok (py "List[" ++ convert_name (drop_last vartype 2) ++ py "]")
  else Ok (convert_name vartype).

(** The object [Converter(dec)]: its one attribute. *)
Record Converter : Type := { dec : str }.

(** [Converter.__init__]: [dec[dec.index(' ') + 1:dec.index(')') + 1]] *)
Definition Converter_init (d : str) : exc Converter :=
  let* sp := index d [SPACE] in
  let* rp := index d [RPAREN] in
  Ok {| dec := slice d (sp + 1) (rp + 1) |}.

(** The renames of [handle_params]. *)
Definition rename (paramname : str) : str :=
  if str_eqb paramname (py "str") then py "string"
  else if str_eqb paramname (py "len") then py "length"
  else if str_eqb paramname (py "map") then py "mapping"
  else paramname.

(** The local variables of the loop of [handle_params]. *)
Record hp_state : Type := {
  lcarrot_count : nat;
  rcarrot_count : nat;
  split_idx : nat;
  params : list str
}.

Definition hp_init : hp_state :=
  {| lcarrot_count := 0; rcarrot_count := 0; split_idx := 0; params := [] |}.

Section Program.

(** [str.isalnum] of a code point above U+007F, as the Unicode database of
    the interpreter gives it; [\w] consults it. *)
Variable uni_alnum : N -> bool.

(** [\w] *)
Definition is_word (c : N) : bool :=
  if (c <? 128)%N then ascii_alnum c || N.eqb c UNDERSCORE else uni_alnum c.

(** [(\w+)\(] *)
Definition name_re : regex := RSeq (RGroup (RPlus is_word)) (RChar LPAREN).

(** [(.+) (\w+)$] *)
Definition param_re : regex :=
  RSeq (RGroup (RPlus dot))
    (RSeq (RChar SPACE) (RSeq (RGroup (RPlus is_word)) REnd)).

(** The body of the loop of [handle_params], at index [idx] and character
    [i].  Inside the loop [paramstr] is not empty, so [len(paramstr) - 1] is
    not negative. *)
Definition hp_body (paramstr : str) (st : hp_state) (idx : nat) (i : N) : exc hp_state :=
  let last := Nat.eqb idx (length paramstr - 1) in
  if N.eqb i LT then
    Ok {| lcarrot_count := lcarrot_count st + 1; rcarrot_count := rcarrot_count st;
          split_idx := split_idx st; params := params st |}
  else if N.eqb i GT then
    Ok {| lcarrot_count := lcarrot_count st; rcarrot_count := rcarrot_count st + 1;
          split_idx := split_idx st; params := params st |}
  else if N.eqb i COMMA && Nat.eqb (lcarrot_count st) (rcarrot_count st) || last then
    let param := slice paramstr (split_idx st) (idx + (if last then 1 else 0)) in
    match re_search param_re param with
    | None => Raise AttributeError
    | Some m =>
        match m_groups m with
        | [paramtype; paramname] =>
            let paramname := rename paramname in
            let* ty := type_conversion paramtype in
            Ok {| lcarrot_count := lcarrot_count st; rcarrot_count := rcarrot_count st;
                  split_idx := idx + 2;
                  params := params st ++ [paramname ++ py ": " ++ ty] |}
        | _ => Raise ValueError
        end
    end
  else Ok st.

(** [for idx, i in enumerate(paramstr)], with [rest] the characters from
    [idx] on. *)
Fixpoint hp_loop (paramstr rest : str) (idx : nat) (st : hp_state) : exc hp_state :=
  match rest with
  | [] => Ok st
  | i :: rest' =>
      let* st' := hp_body paramstr st idx i in
      hp_loop paramstr rest' (S idx) st'
  end.

(** [Converter.handle_params] *)
Definition handle_params (paramstr : str) : exc (list str) :=
  let* st := hp_loop paramstr paramstr 0 hp_init in
  Ok (params st).

(** [Converter.convert] *)
Definition convert (self : Converter) : exc str :=
  match re_search name_re (dec self) with
  | None => Raise AttributeError
  | Some namesearch =>
      let* rettype :=
        type_conversion (strip (slice (dec self) 0 (m_start namesearch))) in
      let name := nth 0 (m_groups namesearch) [] in
      let* lp := index (dec self) [LPAREN] in
      let* rp := index (dec self) [RPAREN] in
      let paramstr := slice (dec self) (lp + 1) rp in
      let* params := handle_params paramstr in
      Ok (py "def " ++ name ++ py "(" ++ join (py ", ") params ++ py ") -> "
            ++ rettype ++ py ":" ++ [NL] ++ py "    pass")
  end.

End Program.

(** ** Problem *)

(** A [Problem] object; [None] is Python's [None]. *)
Record Problem : Type := {
  url : str;
  name : option str;
  text : option str
}.

(** [Problem.__init__] *)
Definition Problem_init (u : str) : Problem :=
  {| url := u; name := None; text := None |}.

(** The dict [conversions] of [Problem.make_asserts]. *)
Definition conversions : gmap (list N) (list N) :=
  list_to_map
    [ ([ARROW], py "==");
      (py "true", py "True");
      (py "false", py "False") ].

(** [conversions[x[0]]], of the [lambda] given to [re.sub]. *)
Definition conversion_of (x : str) : exc str :=
  match conversions !! x with
  | Some v => Ok v
  | None => Raise KeyError
  end.

(** The pattern of [make_asserts]: the arrow, [true] or [false]. *)
Definition assert_re : regex :=
  RAlt (RChar ARROW) (RAlt (RStr (py "true")) (RStr (py "false"))).

(** A list comprehension whose expression may raise. *)
Fixpoint emap {A B} (f : A -> exc B) (l : list A) : exc (list B) :=
  match l with
  | [] => Ok []
  | x :: l' =>
      let* y := f x in
      let* ys := emap f l' in
      Ok (y :: ys)
  end.

Definition GUARD : str := py "if __name__ == '__main__':".

(** [Problem.make_asserts] *)
Definition make_asserts (asserts : list str) : exc str :=
  let* asserts := emap (re_sub assert_re conversion_of) asserts in
  let asserts := concat (map (fun i => [NL] ++ py "    assert " ++ i) asserts) in
  Ok (GUARD ++ asserts).

(** The local variables of the wrapping loop of [Problem._process]. *)
Record wrap_state : Type := {
  idx1 : nat;
  idx2 : nat;
  lettercount : nat;
  docstringwrap : list str
}.

Definition wrap_init : wrap_state :=
  {| idx1 := 0; idx2 := 0; lettercount := 0; docstringwrap := [] |}.

(** [docstring[idx2] == ' '], with [idx2] in range. *)
Definition space_at (docstring : str) (i : nat) : bool :=
  match docstring !! i with
  | Some c => N.eqb c SPACE
  | None => false
  end.

(** The body of the wrapping loop. *)
Definition wrap_body (docstring : str) (st : wrap_state) : wrap_state :=
  let last := Nat.eqb (idx2 st) (length docstring - 1) in
  let st' :=
    if (81 <? lettercount st) && space_at docstring (idx2 st) || last
    then {| idx1 := idx2 st + 1;
            idx2 := idx2 st;
            lettercount := 0;
            docstringwrap :=
              docstringwrap st
                ++ [slice docstring (idx1 st) (idx2 st + (if last then 1 else 0))] |}
    else st in
  {| idx1 := idx1 st';
     idx2 := idx2 st' + 1;
     lettercount := lettercount st' + 1;
     docstringwrap := docstringwrap st' |}.

(** [while idx2 < len(docstring): ...] *)
Equations? wrap_loop (docstring : str) (st : wrap_state) : wrap_state
  by wf (length docstring - idx2 st) lt :=
  wrap_loop docstring st with lt_dec (idx2 st) (length docstring) := {
    | left _ => wrap_loop docstring (wrap_body docstring st)
    | right _ => st }.
Proof.
  unfold wrap_body.
  destruct (_ || _); simpl; lia.
Qed.

(** The lines of the wrapped docstring. *)
Definition wrap (docstring : str) : list str :=
  docstringwrap (wrap_loop docstring wrap_init).

Definition TRIPLE : str := [QUOTE; QUOTE; QUOTE].

(** The docstring block. *)
Definition doc_block (docstring : str) : str :=
  TRIPLE ++ [NL] ++ join [NL] (wrap docstring) ++ [NL] ++ TRIPLE.

(** The import line of [_process], with its newline, or [''] *)
Definition import_line (decstr : str) : str :=
  let imports := [] in
  let imports := if contains decstr (py "List") then imports ++ [py "List"] else imports in
  let imports := if contains decstr (py "Dict") then imports ++ [py "Dict"] else imports in
  match imports with
  | [] => []
  | _ => py "from typing import " ++ join (py ", ") imports ++ [NL]
  end.

(** [f'{docstring}\n{imports}\n\n{decstr}\n\n\n{asserts}\n'] *)
Definition assemble (docstring imports decstr asserts : str) : str :=
  docstring ++ [NL] ++ imports ++ [NL; NL] ++ decstr ++ [NL; NL; NL] ++ asserts ++ [NL].

(** What the queries of [_process] find in a parsed page: the texts of the
    [span] elements of class [h2], the text of the [div] with id [ace_div],
    the strings that contain an arrow, and the text of the [p] of class
    [max2]; [None] where [find] finds nothing. *)
Record Scraped : Type := {
  sc_names : list str;
  sc_decl : option str;
  sc_examples : list str;
  sc_desc : option str
}.

(** [x.get_text()] of the result of [soup.find]. *)
Definition get_text (x : option str) : exc str :=
  match x with
  | Some t => Ok t
  | None => Raise AttributeError
  end.

(** A method that mutates [self]: the object afterwards and the outcome. *)
Definition method (S : Type) : Type := S * exc unit.

Section Pages.

Variable uni_alnum : N -> bool.

(** [BeautifulSoup(response_text, 'html.parser')] and its queries. *)
Variable soup : str -> Scraped.

(** [Problem._process] *)
Definition _process (self : Problem) (response_text : str) : method Problem :=
  let page := soup response_text in
  match last (sc_names page) with
  | None => (self, Raise IndexError)
  | Some n =>
      let self := {| url := url self; name := Some n; text := text self |} in
      let result :=
        let* decstr := get_text (sc_decl page) in
        let* c := Converter_init decstr in
        let* decstr := convert uni_alnum c in
        let* asserts := make_asserts (sc_examples page) in
        let* docstring := get_text (sc_desc page) in
        let docstring := doc_block (strip docstring) in
        Ok (assemble docstring (import_line decstr) decstr asserts) in
      match result with
      | Ok t => ({| url := url self; name := name self; text := Some t |}, Ok tt)
      | Raise e => (self, Raise e)
      end
  end.

(** The network: what a GET of a URL answers, and the URLs requested so
    far, the latest first. *)
Record World : Type := {
  net : str -> exc str;
  requested : list str
}.

Definition get (w : World) (u : str) : World * exc str :=
  ({| net := net w; requested := u :: requested w |}, net w u).

(** [Problem.process] *)
Definition process (self : Problem) (w : World) : World * method Problem :=
  match text self with
  | Some _ => (w, (self, Ok tt))
  | None =>
      match get w (url self) with
      | (w', Raise e) => (w', (self, Raise e))
      | (w', Ok restext) => (w', _process self restext)
      end
  end.

(** [Problem.async_process], run to completion: [await session.get(...)],
    [await res.text()], then [_process]. *)
Definition async_process (self : Problem) (session : World) : World * method Problem :=
  match text self with
  | Some _ => (session, (self, Ok tt))
  | None =>
      match get session (url self) with
      | (session', Raise e) => (session', (self, Raise e))
      | (session', Ok restext) => (session', _process self restext)
      end
  end.

End Pages.

(** ** CategoryPage *)

(** A [CategoryPage] object; its [url] and [name] carry a prefix here, the
    attributes of [Problem] having the plain names. *)
Record CategoryPage : Type := {
  cp_url : str;
  cp_name : str;
  problems : list Problem;
  processed : bool
}.

(** [f'{x}'] of an attribute that may be [None]. *)
Definition fmt (x : option str) : str :=
  match x with
  | Some t => t
  | None => py "None"
  end.

(** [os.path.join(a, b)], as [posixpath] has it. *)
Definition path_join (a b : str) : str :=
  if startswith b (py "/") then b
  else if str_eqb a [] || endswith a (py "/") then a ++ b
  else a ++ py "/" ++ b.

(** [os.path.join('.', self.name, f'{prob.name}.py')] *)
Definition path_of (self : CategoryPage) (prob : Problem) : str :=
  path_join (path_join (py ".") (cp_name self)) (fmt (name prob) ++ py ".py").

(** What the built-in [open], the [write] of the file object and its closing
    raise when they fail: an exception of the interpreter, which is never
    the [ProcessingError] of this program. *)
Inductive io_exn : Type :=
| IOValueError
| IOUnicodeEncodeError
| IOOSError
| IOOther (name : str).

Definition raised (e : io_exn) : exn :=
  match e with
  | IOValueError => ValueError
  | IOUnicodeEncodeError => UnicodeEncodeError
  | IOOSError => OSError
  | IOOther name => BuiltinError name
  end.

(** Whether the [utf8] codec encodes the text: it does unless the text has
    a surrogate, a code point from U+D800 to U+DFFF. *)
Definition encodable (t : str) : bool :=
  forallb (fun c => negb ((55296 <=? c) && (c <=? 57343))%N) t.

Section Write.

(** The file system is not part of the program: its states, and what the
    steps of [with open(path, 'w+', encoding='utf8') as f: f.write(text)]
    do to one, are taken as given. Each step may fail, with an exception of
    the interpreter: [open] with [ValueError] on a path with a null
    character and with [OSError] when the system refuses, and so on. *)
Variable FS : Type.

(** [open(path, 'w+', encoding='utf8')]: the file is created or emptied. *)
Variable fs_open : str -> FS -> FS * option io_exn.

(** The encoded text goes to the file opened at [path], which is closed. *)
Variable fs_store : str -> str -> FS -> FS * option io_exn.

(** The file opened at [path] is closed, nothing having gone to it. *)
Variable fs_close : str -> FS -> FS * option io_exn.

(** Leaving the [with] block by the exception [e]: the file is closed, and
    [e] goes on unless the closing raises itself. *)
Definition close_after (path : str) (e : exn) (fs : FS) : FS * exc unit :=
  match fs_close path fs with
  | (fs', Some e') => (fs', Raise (raised e'))
  | (fs', None) => (fs', Raise e)
  end.

(** [with open(path, 'w+', encoding='utf8') as f: f.write(prob.text)]:
    [f.write] raises [TypeError] when the text is [None] and
    [UnicodeEncodeError] when the codec cannot encode it. *)
Definition write_file (path : str) (t : option str) (fs : FS) : FS * exc unit :=
  match fs_open path fs with
  | (fs1, Some e) => (fs1, Raise (raised e))
  | (fs1, None) =>
      match t with
      | Some t =>
          if encodable t then
            match fs_store path t fs1 with
            | (fs2, Some e) => (fs2, Raise (raised e))
            | (fs2, None) => (fs2, Ok tt)
            end
          else close_after path UnicodeEncodeError fs1
      | None => close_after path TypeError fs1
      end
  end.

(** [for prob in self.problems: ...] *)
Fixpoint write_loop (self : CategoryPage) (probs : list Problem) (fs : FS)
  : FS * exc unit :=
  match probs with
  | [] => (fs, Ok tt)
  | prob :: probs' =>
      match write_file (path_of self prob) (text prob) fs with
      | (fs', Ok _) => write_loop self probs' fs'
      | (fs', Raise e) => (fs', Raise e)
      end
  end.

(** [CategoryPage.write] *)
Definition write (self : CategoryPage) (fs : FS) : FS * exc unit :=
  if processed self then write_loop self (problems self) fs
  else (fs, Raise (ProcessingError (cp_name self ++ py " has not been processed"))).

End Write.

Arguments close_after {FS} fs_close path e fs.
Arguments write_file {FS} fs_open fs_store fs_close path t fs.
Arguments write_loop {FS} fs_open fs_store fs_close self probs fs.
Arguments write {FS} fs_open fs_store fs_close self fs.

(** A file system on which no step fails: the files by path, each with the
    text it holds. *)
Definition plain_open (path : str) (fs : gmap (list N) (list N))
  : gmap (list N) (list N) * option io_exn := (<[path := []]> fs, None).

Definition plain_store (path t : str) (fs : gmap (list N) (list N))
  : gmap (list N) (list N) * option io_exn := (<[path := t]> fs, None).

Definition plain_close (path : str) (fs : gmap (list N) (list N))
  : gmap (list N) (list N) * option io_exn := (fs, None).


Definition HYPHEN : N := 45.
Definition SLASH : N := 47.

Section Category.

Variable uni_alnum : N -> bool.

(** [[\w\-]] *)
Definition is_name_char (c : N) : bool := is_word uni_alnum c || N.eqb c HYPHEN.

(** [/([\w\-]+)$] *)
Definition category_re : regex :=
  RSeq (RChar SLASH) (RSeq (RGroup (RPlus is_name_char)) REnd).

(** [CategoryPage.__init__]: subscripting the [None] of a failed search
    raises [TypeError]. *)
Definition CategoryPage_init (u : str) : exc CategoryPage :=
  match re_search category_re u with
  | None => Raise TypeError
  | Some m =>
      Ok {| cp_url := u;
            cp_name := nth 0 (m_groups m) [];
            problems := [];
            processed := false |}
  end.

End Category.
(** * The claims, where a statement needs words of its own *)

(** The words of the claim: a token of the [Map<K, V>] syntax, and one of
    the [List<T>] syntax or the bare [List]. *)
Definition map_syntax (t : str) : Prop :=
  exists k v, t = py "Map<" ++ k ++ py ", " ++ v ++ py ">".

Definition list_syntax (t : str) : Prop :=
  t = py "List" \/ exists x, t = py "List<" ++ x ++ py ">".

(** C7, as the claim states it: a token outside the three container cases
    and the table comes back unchanged, and no token raises. *)
Definition verbatim_as_claimed : Prop :=
  forall t : str,
    ~ map_syntax t -> ~ list_syntax t -> endswith t (py "[]") = false ->
    general_conversion !! t = None ->
    type_conversion t = Ok t.

Definition total_as_claimed : Prop :=
  forall t : str, exists r, type_conversion t = Ok r.


(** The import line of the assembled text, as lines: one line that names
    [List], [Dict] or both, [List] first, or no line. *)
Definition import_lines (decstr : str) : list str :=
  match contains decstr (py "List"), contains decstr (py "Dict") with
  | true, true => [py "from typing import List, Dict"]
  | true, false => [py "from typing import List"]
  | false, true => [py "from typing import Dict"]
  | false, false => []
  end.

(** C6, as the claim states it: the lines of the assembled text, with one
    blank line before the stub and two after it. *)
Definition layout_as_claimed (doc decstr asserts : str) : str :=
  join [NL]
    ([doc] ++ import_lines decstr ++ [[]] ++ [decstr] ++ [[]; []] ++ [asserts] ++ [[]]).

(** The lines of the assembled text, with two blank lines before the stub
    and two after it. *)
Definition layout (doc decstr asserts : str) : str :=
  join [NL]
    ([doc] ++ import_lines decstr ++ [[]; []] ++ [decstr] ++ [[]; []] ++ [asserts] ++ [[]]).

(** A page of the site, as the queries of [_process] see it. *)
Definition sleepIn_page : Scraped :=
  {| sc_names := [py "Warmup-1"; py "sleepIn"];
     sc_decl := Some (py "public boolean sleepIn(boolean weekday, boolean vacation) {");
     sc_examples := [py "sleepIn(false, false) " ++ [ARROW] ++ py " true";
                     py "sleepIn(true, false) " ++ [ARROW] ++ py " false"];
     sc_desc := Some (py " We sleep in if it is not a weekday or we are on vacation. ") |}.

Definition sleepIn_stub : str :=
  py "def sleepIn(weekday: bool, vacation: bool) -> bool:" ++ [NL] ++ py "    pass".

Definition sleepIn_doc : str :=
  TRIPLE ++ [NL] ++ py "We sleep in if it is not a weekday or we are on vacation."
    ++ [NL] ++ TRIPLE.

Definition sleepIn_asserts : str :=
  py "if __name__ == '__main__':" ++ [NL]
    ++ py "    assert sleepIn(False, False) == True" ++ [NL]
    ++ py "    assert sleepIn(True, False) == False".

(** What the wrapping loop keeps true: the lines cut so far, each followed
    by the space it was cut at, and the line being read make up the text
    read so far; once the text is read, the lines joined by spaces are the
    text. *)
Definition wrap_inv (s : str) (st : wrap_state) : Prop :=
  Forall (fun line => line <> []) (docstringwrap st) /\
  ((idx2 st < length s /\ idx1 st <= idx2 st /\
    lettercount st <= idx2 st - idx1 st + 1 /\
    concat (map (fun y => y ++ [SPACE]) (docstringwrap st))
      ++ slice s (idx1 st) (idx2 st) = firstn (idx2 st) s)
   \/ (idx2 st = length s /\ join [SPACE] (docstringwrap st) = s)).

(** The description of a problem of the site. *)
Definition long_doc : str :=
  py "The parameter weekday is true if it is a weekday, and the parameter vacation is true if we are on vacation. We sleep in if it is not a weekday or we're on vacation. Return true if we sleep in.".

(** What remains of [s] after its longest prefix of characters of [p]. *)
Fixpoint drop_run (p : N -> bool) (s : str) : str :=
  match s with
  | c :: s' => if p c then drop_run p s' else s
  | [] => []
  end.

(** The number of occurrences of [c] in [s]. *)
Fixpoint count_char (c : N) (s : str) : nat :=
  match s with
  | [] => 0
  | d :: s' => (if N.eqb d c then 1 else 0) + count_char c s'
  end.

(** Every comma of [p] stands inside brackets: before it, the counts of
    [<] and [>] differ. *)
Definition commas_inside (p : str) : Prop :=
  forall a b : str, p = a ++ COMMA :: b -> count_char LT a <> count_char GT a.

(** As many [<] as [>]. *)
Definition balanced (p : str) : Prop := count_char LT p = count_char GT p.

(** The state of the loop of [handle_params] when it runs on a text that
    stands [off] characters into a longer one, after [k] pairs of brackets
    and the parameters [ps]. *)
Definition hp_shift (k off : nat) (ps : list str) (st : hp_state) : hp_state :=
  {| lcarrot_count := lcarrot_count st + k;
     rcarrot_count := rcarrot_count st + k;
     split_idx := split_idx st + off;
     params := ps ++ params st |}.

(** C1, as the claim states it: for a declaration made of a return-type
    token, spaces, the name and the parenthesised parameters, the stub
    carries the mapped text that stands before the name. *)
Definition return_type_as_claimed (uni_alnum : N -> bool) : Prop :=
  forall (rt spaces nm ps : str) (params : list str) (mapped : str),
    rt <> [] -> ~ In SPACE rt -> ~ In LPAREN rt -> ~ In RPAREN rt ->
    spaces <> [] -> Forall (fun c => c = SPACE) spaces ->
    nm <> [] -> Forall (fun c => is_word uni_alnum c = true) nm ->
    ~ In RPAREN ps ->
    type_conversion (strip (rt ++ spaces)) = Ok mapped ->
    handle_params uni_alnum ps = Ok params ->
    (let* c := Converter_init (rt ++ spaces ++ nm ++ [LPAREN] ++ ps ++ [RPAREN]) in
     convert uni_alnum c) =
      Ok (py "def " ++ nm ++ py "(" ++ join (py ", ") params ++ py ") -> "
            ++ mapped ++ py ":" ++ [NL] ++ py "    pass").


(** * Words for the further properties *)

(** A parameter of a declaration: its type and its name. *)
Definition raw_param (p : str * str) : str := fst p ++ py " " ++ snd p.

(** The parameter as [handle_params] renders it. *)
Definition render_param (p : str * str) : exc str :=
  let* t := type_conversion (fst p) in
  Ok (rename (snd p) ++ py ": " ++ t).

(** A parameter the splitter reads as one: a type on one line, with as many
    [<] as [>] and its commas inside them, and a name that is a word. *)
Definition param_ok (uni_alnum : N -> bool) (p : str * str) : Prop :=
  fst p <> [] /\ Forall (fun c => dot c = true) (fst p) /\
  snd p <> [] /\ Forall (fun c => is_word uni_alnum c = true) (snd p) /\
  commas_inside (fst p) /\ balanced (fst p).

(** A rendered parameter [name: type] whose name is a word other than
    [str], [len] and [map]. *)
Definition well_named (uni_alnum : N -> bool) (p : str) : Prop :=
  exists nm t : str,
    p = nm ++ py ": " ++ t /\
    nm <> [] /\ Forall (fun c => is_word uni_alnum c = true) nm /\
    nm <> py "str" /\ nm <> py "len" /\ nm <> py "map".

(** Lines cut by the wrapping loop: the first has 82 characters at least
    and no space from the 83rd on, each further one 81 at least and no
    space from the 82nd on. *)
Definition lines_greedy (W : list str) : Prop :=
  match W with
  | [] => True
  | l0 :: ls =>
      (82 <= length l0 /\ ~ In SPACE (skipn 82 l0)) /\
      Forall (fun l => 81 <= length l /\ ~ In SPACE (skipn 81 l)) ls
  end.

(** What the wrapping loop keeps true of the lines cut so far and of the
    line being read; [lettercount] runs one ahead once a line is cut. *)
Definition wrap_inv_greedy (s : str) (st : wrap_state) : Prop :=
  (idx2 st < length s /\ idx1 st <= idx2 st /\
   lines_greedy (docstringwrap st) /\
   (docstringwrap st = [] -> idx1 st = 0) /\
   lettercount st =
     idx2 st - idx1 st + (match docstringwrap st with [] => 0 | _ => 1 end) /\
   (forall j, idx1 st <= j -> j < idx2 st ->
      81 < j - idx1 st + (match docstringwrap st with [] => 0 | _ => 1 end) ->
      s !! j <> Some SPACE))
  \/ (idx2 st = length s /\
      ((s = [] /\ docstringwrap st = []) \/
       exists W final, docstringwrap st = W ++ [final] /\ lines_greedy W)).

(** ** The guard and its body *)

(** The grammar of Python gives an [if] a body of one statement at least,
    on the line of the [if] or indented under it: in a block that Python
    parses, something other than white space follows the colon of the
    guard. *)
Definition guard_has_body (block : str) : Prop :=
  exists body, block = GUARD ++ body /\ Exists (fun c => isspace c = false) body.

(** * Properties *)

(** ** The type mapper *)

(** C2: the table of the type mapper: [String], [boolean], [int[]],
    [Map<String, Integer>], [List<String>] and the bare [List] are mapped to
    [str], [bool], [List[int]], [Dict[str, int]], [List[str]] and [list]. *)
Theorem type_conversion_table :
  type_conversion (py "String") = Ok (py "str") /\
  type_conversion (py "boolean") = Ok (py "bool") /\
  type_conversion (py "int[]") = Ok (py "List[int]") /\
  type_conversion (py "Map<String, Integer>") = Ok (py "Dict[str, int]") /\
  type_conversion (py "List<String>") = Ok (py "List[str]") /\
  type_conversion (py "List") = Ok (py "list").
Proof. repeat split; vm_compute; reflexivity. Qed.

Lemma find_from_In (c : N) (s : str) (pos : nat) :
  In c s -> exists n, find_from s [c] pos = Ok n.
Proof.
  revert pos. induction s as [|d s IH]; intros pos Hin; [destruct Hin|].
  cbn [find_from startswith].
  destruct (N.eqb_spec c d) as [->|Hne].
  - exists pos. reflexivity.
  - destruct Hin as [->|Hin]; [congruence|]. cbn. apply IH, Hin.
Qed.

Lemma index_In (c : N) (s : str) : In c s -> exists n, index s [c] = Ok n.
Proof. apply find_from_In. Qed.

Lemma find_from_raises (s p : str) (pos : nat) (e : exn) :
  find_from s p pos = Raise e -> e = ValueError.
Proof.
  revert pos. induction s as [|d s IH]; intros pos; cbn [find_from];
    destruct (startswith _ p); try discriminate.
  - intros [= <-]. reflexivity.
  - apply IH.
Qed.

Lemma bracketed_raises (t : str) (e : exn) :
  bracketed t = Raise e -> e = ValueError.
Proof.
  unfold bracketed, index.
  destruct (find_from t [LT] 0) eqn:E1; cbn.
  - destruct (find_from t [GT] 0) eqn:E2; cbn; [discriminate|].
    intros [= <-]. eapply find_from_raises, E2.
  - intros [= <-]. eapply find_from_raises, E1.
Qed.

(** C7 fails on the code: [ListNode] is none of the container forms and is
    not in the table, yet it is mapped to [list]; and the bare [Map], which
    has no bracket, raises [ValueError]. *)
Lemma type_conversion_not_verbatim :
  type_conversion (py "ListNode") = Ok (py "list") /\
  type_conversion (py "Map") = Raise ValueError /\
  ~ verbatim_as_claimed /\ ~ total_as_claimed.
Proof.
  split; [vm_compute; reflexivity|].
  split; [vm_compute; reflexivity|].
  split.
  - intros H. specialize (H (py "ListNode")).
    assert (E : type_conversion (py "ListNode") = Ok (py "ListNode")).
    { apply H.
      - intros (k & v & E). vm_compute in E. discriminate.
      - intros [E | (x & E)]; vm_compute in E; discriminate.
      - vm_compute. reflexivity.
      - vm_compute. reflexivity. }
    vm_compute in E. discriminate.
  - intros H. destruct (H (py "Map")) as [r E]. vm_compute in E. discriminate.
Qed.

(** C7, amended: a token that starts with neither [Map] nor [List], does not
    end with [[]] and is not in the table comes back unchanged; and no token
    raises unless it starts with [Map] and lacks a bracket. *)
Theorem type_conversion_passthrough :
  (forall t : str,
      startswith t (py "Map") = false ->
      startswith t (py "List") = false ->
      endswith t (py "[]") = false ->
      general_conversion !! t = None ->
      type_conversion t = Ok t) /\
  (forall t : str,
      startswith t (py "Map") = false \/ (In LT t /\ In GT t) ->
      exists r, type_conversion t = Ok r).
Proof.
  split.
  - intros t HM HL HA HT. unfold type_conversion, convert_name.
    rewrite HM, HL, HA, HT. reflexivity.
  - intros t H. unfold type_conversion.
    destruct (startswith t (py "Map")) eqn:HM.
    + destruct H as [H | [Hl Hg]]; [discriminate|].
      unfold bracketed.
      destruct (index_In _ _ Hl) as [a ->], (index_In _ _ Hg) as [b ->].
      cbn. eauto.
    + destruct (startswith t (py "List")).
      * destruct (bracketed t) as [a|e] eqn:E; [eauto|].
        apply bracketed_raises in E as ->. eauto.
      * destruct (endswith t (py "[]")); eauto.
Qed.

Lemma type_conversion_passthrough_witness :
  type_conversion (py "int") = Ok (py "int") /\
  exists r, type_conversion (py "Map<K, V>") = Ok r.
Proof.
  split.
  - apply (proj1 type_conversion_passthrough); vm_compute; reflexivity.
  - apply (proj2 type_conversion_passthrough). right.
    split; vm_compute; tauto.
Defined.

(** ** The assertion block *)

Lemma startswith_app (p t : str) : startswith (p ++ t) p = true.
Proof. induction p as [|c p IH]; cbn; [reflexivity|]. rewrite N.eqb_refl. exact IH. Qed.

Lemma startswith_true (s p : str) :
  startswith s p = true -> s = p ++ skipn (length p) s.
Proof.
  revert s. induction p as [|c p IH]; intros s H; [reflexivity|].
  destruct s as [|d s]; cbn in H; [discriminate|].
  apply andb_true_iff in H as [H1 H2]. apply N.eqb_eq in H1 as ->.
  cbn. f_equal. apply IH, H2.
Qed.

Lemma consumed_app (p t : str) : consumed (p ++ t) t = p.
Proof.
  unfold consumed. rewrite length_app.
  replace (length p + length t - length t) with (length p) by lia.
  rewrite firstn_app, Nat.sub_diag, firstn_all. cbn. apply app_nil_r.
Qed.

Lemma rmatch_RStr (p s : str) (g : list str) :
  rmatch (RStr p) s g = if startswith s p then [(g, skipn (length p) s)] else [].
Proof.
  revert s. induction p as [|c p IH]; intros s; [reflexivity|].
  destruct s as [|d s]; [reflexivity|].
  cbn [RStr rmatch startswith].
  destruct (N.eqb c d); cbn; [|reflexivity].
  rewrite IH, app_nil_r. reflexivity.
Qed.

Lemma sub_go_0 (r : regex) (repl : str -> exc str) (s : str) :
  sub_go r repl s 0 =
    match rmatch r s [] with
    | (_, t) :: _ =>
        let* x := repl (consumed s t) in
        match s with
        | [] => Ok x
        | c :: s' =>
            match length s - length t with
            | 0 => let* rest := sub_go r repl s' 0 in Ok (x ++ c :: rest)
            | S k => let* rest := sub_go r repl s' k in Ok (x ++ rest)
            end
        end
    | [] =>
        match s with
        | [] => Ok []
        | c :: s' => let* rest := sub_go r repl s' 0 in Ok (c :: rest)
        end
    end.
Proof. destruct s; reflexivity. Qed.

Lemma sub_go_skip (r : regex) (repl : str -> exc str) (p s : str) :
  sub_go r repl (p ++ s) (length p) = sub_go r repl s 0.
Proof. induction p as [|c p IH]; [reflexivity|]. cbn. exact IH. Qed.

(** Replacing a literal match [c :: p] at the head of the text. *)
Lemma sub_go_literal (r : regex) (repl : str -> exc str) (c : N) (p s : str) g l :
  rmatch r (c :: p ++ s) [] = (g, s) :: l ->
  sub_go r repl (c :: p ++ s) 0 =
    let* x := repl (c :: p) in
    let* rest := sub_go r repl s 0 in Ok (x ++ rest).
Proof.
  intros H. rewrite sub_go_0, H.
  change (c :: p ++ s) with ((c :: p) ++ s).
  rewrite consumed_app.
  destruct (repl (c :: p)) as [x|e]; [|reflexivity]. cbn [ebind].
  cbn [app length]. rewrite length_app.
  replace (S (length p + length s) - length s) with (S (length p)) by lia.
  rewrite sub_go_skip. reflexivity.
Qed.

Lemma rmatch_assert_re (s : str) :
  rmatch assert_re s [] =
    (if startswith s [ARROW] then [([], skipn 1 s)] else [])
      ++ (if startswith s (py "true") then [([], skipn 4 s)] else [])
      ++ (if startswith s (py "false") then [([], skipn 5 s)] else []).
Proof.
  unfold assert_re. cbn [rmatch]. rewrite !rmatch_RStr.
  f_equal. destruct s as [|d s]; [reflexivity|].
  cbn [startswith]. destruct (N.eqb ARROW d); reflexivity.
Qed.

Lemma re_sub_arrow (s : str) :
  re_sub assert_re conversion_of ([ARROW] ++ s) =
    let* r := re_sub assert_re conversion_of s in Ok (py "==" ++ r).
Proof.
  unfold re_sub. cbn [app].
  rewrite (sub_go_literal _ _ ARROW [] s [] []); [reflexivity|].
  reflexivity.
Qed.
Lemma re_sub_true (s : str) :
  re_sub assert_re conversion_of (py "true" ++ s) =
    let* r := re_sub assert_re conversion_of s in Ok (py "True" ++ r).
Proof.
  unfold re_sub.
  change (py "true" ++ s) with (116%N :: py "rue" ++ s).
  rewrite (sub_go_literal _ _ _ _ s [] []); reflexivity.
Qed.

Lemma re_sub_false (s : str) :
  re_sub assert_re conversion_of (py "false" ++ s) =
    let* r := re_sub assert_re conversion_of s in Ok (py "False" ++ r).
Proof.
  unfold re_sub.
  change (py "false" ++ s) with (102%N :: py "alse" ++ s).
  rewrite (sub_go_literal _ _ _ _ s [] []); reflexivity.
Qed.

Lemma re_sub_other (c : N) (s : str) :
  startswith (c :: s) [ARROW] = false ->
  startswith (c :: s) (py "true") = false ->
  startswith (c :: s) (py "false") = false ->
  re_sub assert_re conversion_of (c :: s) =
    let* r := re_sub assert_re conversion_of s in Ok (c :: r).
Proof.
  intros H1 H2 H3. unfold re_sub.
  rewrite sub_go_0, rmatch_assert_re, H1, H2, H3. reflexivity.
Qed.

Lemma sub_go_total (s : str) (skip : nat) :
  exists r, sub_go assert_re conversion_of s skip = Ok r.
Proof.
  revert skip. induction s as [|c s IH]; intros skip.
  - destruct skip; cbn; eauto.
  - destruct skip as [|k]; [|cbn; apply IH].
    rewrite sub_go_0, rmatch_assert_re.
    assert (K : forall p v,
      startswith (c :: s) p = true -> conversion_of p = Ok v ->
      exists r,
        (let* x := conversion_of (consumed (c :: s) (skipn (length p) (c :: s))) in
         match length (c :: s) - length (skipn (length p) (c :: s)) with
         | 0 => let* rest := sub_go assert_re conversion_of s 0 in Ok (x ++ c :: rest)
         | S k => let* rest := sub_go assert_re conversion_of s k in Ok (x ++ rest)
         end) = Ok r).
    { intros p v Hp Hv. apply startswith_true in Hp.
      replace (consumed (c :: s) (skipn (length p) (c :: s))) with p
        by (rewrite Hp at 1; symmetry; apply consumed_app).
      rewrite Hv. cbn [ebind].
      destruct (length (c :: s) - _) as [|k];
        [destruct (IH 0) as [r ->] | destruct (IH k) as [r ->]]; cbn; eauto. }
    destruct (startswith (c :: s) [ARROW]) eqn:H1.
    { apply (K [ARROW] (py "==")); [exact H1 | reflexivity]. }
    destruct (startswith (c :: s) (py "true")) eqn:H2.
    { apply (K (py "true") (py "True")); [exact H2 | reflexivity]. }
    destruct (startswith (c :: s) (py "false")) eqn:H3.
    { apply (K (py "false") (py "False")); [exact H3 | reflexivity]. }
    cbn [app]. destruct (IH 0) as [r ->]. cbn. eauto.
Qed.

Lemma emap_total {A B} (f : A -> exc B) (l : list A) :
  (forall x, exists y, f x = Ok y) ->
  exists rs, Forall2 (fun x y => f x = Ok y) l rs /\ emap f l = Ok rs.
Proof.
  intros Hf. induction l as [|x l (rs & H1 & H2)].
  - exists []. split; [constructor | reflexivity].
  - destruct (Hf x) as [y Hy]. exists (y :: rs). split; [constructor; assumption|].
    cbn. rewrite Hy, H2. reflexivity.
Qed.

(** C5: [make_asserts] puts one [assert] line per example, in order, under
    the guard line; the text of an example is changed only where the arrow,
    [true] or [false] stands, which become [==], [True] and [False]; so the
    two examples [max(1, 2) -> 2] and [isOdd(3) -> true] give the two
    assertions of the claim. *)
Theorem make_asserts_substitutes :
  (forall l : list str, exists rs,
      Forall2 (fun e r => re_sub assert_re conversion_of e = Ok r) l rs /\
      make_asserts l =
        Ok (py "if __name__ == '__main__':"
              ++ concat (map (fun r => [NL] ++ py "    assert " ++ r) rs))) /\
  re_sub assert_re conversion_of [] = Ok [] /\
  (forall s : str,
      re_sub assert_re conversion_of ([ARROW] ++ s) =
        let* r := re_sub assert_re conversion_of s in Ok (py "==" ++ r)) /\
  (forall s : str,
      re_sub assert_re conversion_of (py "true" ++ s) =
        let* r := re_sub assert_re conversion_of s in Ok (py "True" ++ r)) /\
  (forall s : str,
      re_sub assert_re conversion_of (py "false" ++ s) =
        let* r := re_sub assert_re conversion_of s in Ok (py "False" ++ r)) /\
  (forall (c : N) (s : str),
      startswith (c :: s) [ARROW] = false ->
      startswith (c :: s) (py "true") = false ->
      startswith (c :: s) (py "false") = false ->
      re_sub assert_re conversion_of (c :: s) =
        let* r := re_sub assert_re conversion_of s in Ok (c :: r)) /\
  make_asserts [py "max(1, 2) " ++ [ARROW] ++ py " 2";
                py "isOdd(3) " ++ [ARROW] ++ py " true"] =
    Ok (py "if __name__ == '__main__':" ++ [NL]
          ++ py "    assert max(1, 2) == 2" ++ [NL]
          ++ py "    assert isOdd(3) == True").
Proof.
  split; [|split; [reflexivity|]].
  - intros l.
    destruct (emap_total (re_sub assert_re conversion_of) l) as (rs & H1 & H2).
    { intros e. apply sub_go_total. }
    exists rs. split; [exact H1|]. unfold make_asserts. rewrite H2. reflexivity.
  - split; [exact re_sub_arrow|]. split; [exact re_sub_true|].
    split; [exact re_sub_false|]. split; [exact re_sub_other|].
    vm_compute. reflexivity.
Qed.

Lemma make_asserts_substitutes_witness :
  re_sub assert_re conversion_of (py "x") =
    let* r := re_sub assert_re conversion_of [] in Ok (py "x" ++ r).
Proof.
  destruct make_asserts_substitutes as (_ & _ & _ & _ & _ & H & _).
  apply (H 120%N []); reflexivity.
Defined.

(** ** The docstring wrapper *)

Lemma wrap_loop_inv (docstring : str) (I : wrap_state -> Prop) :
  (forall st, idx2 st < length docstring -> I st -> I (wrap_body docstring st)) ->
  forall st, I st ->
    I (wrap_loop docstring st) /\ length docstring <= idx2 (wrap_loop docstring st).
Proof.
  intros Hbody st. funelim (wrap_loop docstring st); intros HI.
  - apply H; [exact Hbody | apply Hbody; assumption].
  - split; [assumption | lia].
Qed.

Lemma join_snoc (sep : str) (l : list str) (x : str) :
  join sep (l ++ [x]) = concat (map (fun y => y ++ sep) l) ++ x.
Proof.
  induction l as [|y l IH]; [reflexivity|].
  cbn [app map concat]. rewrite <- app_assoc, <- IH, <- app_assoc.
  destruct l; reflexivity.
Qed.

Lemma slice_snoc (s : str) (a b : nat) (c : N) :
  a <= b -> s !! b = Some c -> slice s a (b + 1) = slice s a b ++ [c].
Proof.
  intros Hab Hc. unfold slice.
  replace (b + 1 - a) with (S (b - a)) by lia.
  apply take_S_r. rewrite lookup_drop. replace (a + (b - a)) with b by lia. exact Hc.
Qed.

Lemma slice_length (s : str) (a b : nat) :
  b <= length s -> length (slice s a b) = b - a.
Proof. intros H. unfold slice. rewrite length_take, length_drop. lia. Qed.

Lemma slice_empty (s : str) (a : nat) : slice s a a = [].
Proof. unfold slice. rewrite Nat.sub_diag. reflexivity. Qed.

Lemma space_at_true (s : str) (i : nat) : space_at s i = true -> s !! i = Some SPACE.
Proof.
  unfold space_at. destruct (s !! i) as [c|]; [|discriminate].
  intros H. apply N.eqb_eq in H as ->. reflexivity.
Qed.

Lemma wrap_body_inv (s : str) (st : wrap_state) :
  idx2 st < length s -> wrap_inv s st -> wrap_inv s (wrap_body s st).
Proof.
  intros Hlt [Hne [(_ & H1 & Hlc & Hcat) | [Hend _]]]; [|lia].
  destruct (lookup_lt_is_Some_2 s (idx2 st) Hlt) as [c Hc].
  assert (Hnext : firstn (idx2 st + 1) s = firstn (idx2 st) s ++ [c]).
  { rewrite Nat.add_1_r. apply take_S_r, Hc. }
  assert (Hline : slice s (idx1 st) (idx2 st + 1) = slice s (idx1 st) (idx2 st) ++ [c])
    by (apply slice_snoc; assumption).
  unfold wrap_body, wrap_inv.
  destruct (Nat.eqb_spec (idx2 st) (length s - 1)) as [Hlast | Hlast].
  - rewrite orb_true_r. cbn [idx1 idx2 lettercount docstringwrap].
    split.
    + apply Forall_app. split; [exact Hne|]. constructor; [|constructor].
      intros E. apply (f_equal (@length N)) in E.
      rewrite slice_length in E; cbn in E; lia.
    + right. split; [lia|].
      rewrite join_snoc, Hline, app_assoc, Hcat, <- Hnext.
      apply firstn_all2. lia.
  - rewrite orb_false_r.
    destruct ((81 <? lettercount st) && space_at s (idx2 st)) eqn:Hcut;
      cbn [idx1 idx2 lettercount docstringwrap].
    + apply andb_true_iff in Hcut as [Hc1 Hc2].
      apply Nat.ltb_lt in Hc1. apply space_at_true in Hc2.
      assert (c = SPACE) as -> by congruence.
      split.
      * apply Forall_app. split; [exact Hne|]. constructor; [|constructor].
        intros E. apply (f_equal (@length N)) in E.
        rewrite Nat.add_0_r, slice_length in E; cbn in E; lia.
      * left. split; [lia|]. split; [lia|]. split; [lia|].
        rewrite map_app, concat_app, slice_empty, Nat.add_0_r. cbn [map concat].
        rewrite !app_nil_r, app_assoc, Hcat. symmetry. exact Hnext.
    + split; [exact Hne|]. left. split; [lia|]. split; [lia|]. split; [lia|].
      rewrite Hline, app_assoc, Hcat. symmetry. exact Hnext.
Qed.

Lemma wrap_inv_final (s : str) :
  Forall (fun line => line <> []) (wrap s) /\ join [SPACE] (wrap s) = s.
Proof.
  destruct (wrap_loop_inv s (wrap_inv s) (wrap_body_inv s) wrap_init) as [[Hne H] Hge].
  - split; [constructor|]. destruct s as [|c s].
    + right. split; reflexivity.
    + left. cbn. repeat split; lia.
  - unfold wrap. split; [exact Hne|].
    destruct H as [(Hlt & _) | [_ H]]; [lia | exact H].
Qed.

Lemma join_no_sep (sep : N) (l : list str) :
  ~ In sep (join [sep] l) -> l = [] \/ l = [join [sep] l].
Proof.
  destruct l as [|x [|y l]]; intros H; auto.
  exfalso. apply H. cbn [join]. apply in_or_app. right. left. reflexivity.
Qed.

(** C4: the wrapped lines, joined again by one space each, are the text:
    a line ends only where a space stood, which is dropped, or at the end
    of the text, so no word is cut; no line is empty; and a text without a
    space, whatever its length, stays one line. *)
Theorem wrap_respects_words (docstring : str) :
  join [SPACE] (wrap docstring) = docstring /\
  Forall (fun line => line <> []) (wrap docstring) /\
  (docstring <> [] -> ~ In SPACE docstring -> wrap docstring = [docstring]).
Proof.
  destruct (wrap_inv_final docstring) as [Hne Hjoin].
  split; [exact Hjoin|]. split; [exact Hne|].
  intros Hs Hsp. rewrite <- Hjoin in Hsp.
  destruct (join_no_sep _ _ Hsp) as [E | E].
  - rewrite E in Hjoin. cbn in Hjoin. congruence.
  - rewrite Hjoin in E. exact E.
Qed.

Lemma wrap_respects_words_witness :
  wrap (py "pneumonoultramicroscopicsilicovolcanoconiosis")
    = [py "pneumonoultramicroscopicsilicovolcanoconiosis"].
Proof.
  apply (proj2 (proj2
    (wrap_respects_words (py "pneumonoultramicroscopicsilicovolcanoconiosis")))).
  - discriminate.
  - vm_compute. intros H. repeat (destruct H as [H|H]; [discriminate|]). exact H.
Defined.

(** The loop at work on a description of two hundred characters. *)
Example wrap_long_doc :
  wrap long_doc =
    [py "The parameter weekday is true if it is a weekday, and the parameter vacation is true";
     py "if we are on vacation. We sleep in if it is not a weekday or we're on vacation. Return";
     py "true if we sleep in."].
Proof. vm_compute. reflexivity. Qed.

(** ** The matcher *)

Lemma plus_class_inv (p : N -> bool) (s t : str) :
  In t (plus_class p s) ->
  exists w, w <> [] /\ Forall (fun c => p c = true) w /\ s = w ++ t.
Proof.
  induction s as [|c s IH]; cbn [plus_class]; [intros []|].
  destruct (p c) eqn:Hc; [|intros []].
  intros H. apply in_app_or in H as [H | [<- | []]].
  - destruct (IH H) as (w & _ & Hw & ->).
    exists (c :: w). repeat split; [discriminate | constructor; assumption].
  - exists [c]. repeat split; [discriminate | repeat constructor; assumption].
Qed.

Lemma plus_class_cons (p : N -> bool) (c : N) (s : str) :
  p c = true -> plus_class p (c :: s) = plus_class p s ++ [s].
Proof. intros H. cbn. rewrite H. reflexivity. Qed.

Lemma plus_class_stop (p : N -> bool) (c : N) (s : str) :
  p c = false -> plus_class p (c :: s) = [].
Proof. intros H. cbn. rewrite H. reflexivity. Qed.

(** The longest match comes first; every shorter one stops before a
    character of the class. *)
Lemma plus_class_head (p : N -> bool) (c : N) (s : str) :
  p c = true ->
  exists tl,
    plus_class p (c :: s) = drop_run p s :: tl /\
    Forall (fun t => exists d t', t = d :: t' /\ p d = true) tl.
Proof.
  revert c. induction s as [|d s IH]; intros c Hc; rewrite (plus_class_cons _ _ _ Hc).
  - exists []. split; [reflexivity | constructor].
  - cbn [drop_run]. destruct (p d) eqn:Hd.
    + destruct (IH d Hd) as (tl & -> & Htl).
      exists (tl ++ [d :: s]). split; [reflexivity|].
      apply Forall_app. split; [exact Htl|]. repeat constructor. eauto.
    + rewrite (plus_class_stop _ _ _ Hd). exists []. split; [reflexivity | constructor].
Qed.

Lemma flat_map_nil {A B} (f : A -> list B) (l : list A) :
  Forall (fun x => f x = []) l -> flat_map f l = [].
Proof. induction 1 as [|x l Hx _ IH]; cbn; [reflexivity|]. rewrite Hx, IH. reflexivity. Qed.

Lemma rmatch_group_plus (p : N -> bool) (b : regex) (s : str) (g : list str) :
  rmatch (RSeq (RGroup (RPlus p)) b) s g =
    flat_map (fun t => rmatch b t (g ++ [consumed s t])) (plus_class p s).
Proof.
  cbn [rmatch]. induction (plus_class p s) as [|t l IH]; [reflexivity|].
  cbn [map flat_map fst snd]. rewrite IH. reflexivity.
Qed.

Lemma drop_run_app (p : N -> bool) (w t : str) :
  Forall (fun c => p c = true) w -> drop_run p (w ++ t) = drop_run p t.
Proof. induction 1 as [|c w Hc _ IH]; cbn; [reflexivity|]. rewrite Hc. exact IH. Qed.

Lemma consumed_nil (s : str) : consumed s [] = s.
Proof. unfold consumed. cbn. rewrite Nat.sub_0_r. apply firstn_all. Qed.

Lemma rmatch_seq_char_miss (c d : N) (b : regex) (t : str) (g : list str) :
  N.eqb c d = false -> rmatch (RSeq (RChar c) b) (d :: t) g = [].
Proof. intros H. cbn [rmatch]. rewrite H. reflexivity. Qed.

Lemma rmatch_seq_char_hit (c : N) (b : regex) (t : str) (g : list str) :
  rmatch (RSeq (RChar c) b) (c :: t) g = rmatch b t g.
Proof. cbn [rmatch]. rewrite N.eqb_refl. cbn [flat_map fst snd]. apply app_nil_r. Qed.

(** ** Strings and searches of the converter *)

Lemma drop_run_all (p : N -> bool) (w : str) :
  Forall (fun c => p c = true) w -> drop_run p w = [].
Proof. intros H. rewrite <- (app_nil_r w), drop_run_app; [reflexivity | exact H]. Qed.

Lemma drop_run_stops (p : N -> bool) (r x : str) :
  Exists (fun d => p d = false) r ->
  exists d t, drop_run p (r ++ x) = d :: t /\ In d r /\ p d = false.
Proof.
  induction r as [|c r IH]; intros H; [inversion H|].
  cbn [app drop_run]. destruct (p c) eqn:Hc.
  - inversion H as [? ? Hc' | ? ? Hr]; subst; [congruence|].
    destruct (IH Hr) as (d & t & -> & Hin & Hd). exists d, t. cbn. auto.
  - exists c, (r ++ x). cbn. auto.
Qed.

(** The matches of [p+] on [a ++ b], when [a] is in the class: those on
    [b], then the ones that stop inside [a], the first of them at [b]. *)
Lemma plus_class_app (p : N -> bool) (a b : str) :
  Forall (fun c => p c = true) a ->
  exists X, plus_class p (a ++ b) = plus_class p b ++ X /\
            (a <> [] -> exists X', X = b :: X').
Proof.
  induction 1 as [|c a Hc Ha (X & IH & Hhd)].
  - exists []. split; [symmetry; apply app_nil_r | congruence].
  - cbn [app]. rewrite (plus_class_cons _ _ _ Hc), IH, <- app_assoc.
    exists (X ++ [a ++ b]). split; [reflexivity|]. intros _.
    destruct a as [|d a].
    + destruct X as [|x X]; [cbn; eauto|].
      cbn in IH. apply (f_equal (@length _)) in IH.
      rewrite length_app in IH. cbn in IH. lia.
    + destruct Hhd as [X' ->]; [discriminate|]. cbn. eauto.
Qed.

Lemma find_from_skip (c : N) (a x : str) (pos : nat) :
  ~ In c a -> find_from (a ++ c :: x) [c] pos = Ok (pos + length a).
Proof.
  revert pos. induction a as [|d a IH]; intros pos H; cbn [app find_from startswith].
  - rewrite N.eqb_refl. cbn. f_equal. lia.
  - destruct (N.eqb_spec c d) as [->|Hne]; [destruct H; left; reflexivity|].
    cbn. rewrite IH; [f_equal; cbn; lia|]. intros Hin. apply H. right. exact Hin.
Qed.

Lemma index_skip (c : N) (a x : str) :
  ~ In c a -> index (a ++ c :: x) [c] = Ok (length a).
Proof. apply find_from_skip. Qed.

Lemma slice_middle (a b c : str) :
  slice (a ++ b ++ c) (length a) (length a + length b) = b.
Proof.
  unfold slice. rewrite skipn_app, Nat.sub_diag, skipn_all. cbn [app].
  replace (length a + length b - length a) with (length b) by lia.
  rewrite skipn_O, firstn_app, Nat.sub_diag, firstn_all. cbn. apply app_nil_r.
Qed.

Lemma slice_prefix (a b : str) : slice (a ++ b) 0 (length a) = a.
Proof. apply (slice_middle [] a b). Qed.

Lemma str_eqb_eq (a b : str) : str_eqb a b = true <-> a = b.
Proof.
  revert b. induction a as [|x a IH]; intros [|y b]; cbn; try (split; congruence).
  rewrite andb_true_iff, N.eqb_eq, IH. split; [intros [-> ->]; reflexivity | intros [= -> ->]; auto].
Qed.

Lemma str_eqb_neq (a b : str) : a <> b -> str_eqb a b = false.
Proof.
  intros H. destruct (str_eqb a b) eqn:E; [|reflexivity].
  apply str_eqb_eq in E. contradiction.
Qed.

Section ConverterFacts.

Variable uni_alnum : N -> bool.

Abbreviation word := (fun c : N => is_word uni_alnum c = true).

Lemma word_not (c d : N) :
  is_word uni_alnum c = false -> is_word uni_alnum d = true -> N.eqb c d = false.
Proof. intros Hc Hd. apply N.eqb_neq. intros ->. congruence. Qed.

Lemma word_not_in (c : N) (w : str) :
  is_word uni_alnum c = false -> Forall word w -> ~ In c w.
Proof.
  intros Hc Hw Hin. rewrite List.Forall_forall in Hw. apply Hw in Hin. congruence.
Qed.

(** [(\w+)\(] at a word character: the word must run up to a [(]. *)
Lemma rmatch_name_re_word (c : N) (s : str) :
  is_word uni_alnum c = true ->
  rmatch (name_re uni_alnum) (c :: s) [] =
    match drop_run (is_word uni_alnum) s with
    | d :: t => if N.eqb LPAREN d then [([consumed (c :: s) (d :: t)], t)] else []
    | [] => []
    end.
Proof.
  intros Hc. unfold name_re. rewrite rmatch_group_plus.
  destruct (plus_class_head _ c s Hc) as (tl & -> & Htl).
  cbn [flat_map]. rewrite (flat_map_nil _ tl).
  - rewrite app_nil_r. cbn [rmatch app].
    destruct (drop_run _ s) as [|d t]; [reflexivity|].
    destruct (N.eqb LPAREN d); reflexivity.
  - eapply Forall_impl; [exact Htl|]. intros t (d & t' & -> & Hd). cbn [rmatch].
    rewrite (word_not LPAREN d); [reflexivity | reflexivity | exact Hd].
Qed.

Lemma rmatch_name_re_other (c : N) (s : str) :
  is_word uni_alnum c = false -> rmatch (name_re uni_alnum) (c :: s) [] = [].
Proof.
  intros Hc. unfold name_re. rewrite rmatch_group_plus, (plus_class_stop _ _ _ Hc).
  reflexivity.
Qed.

(** [re.search] for the name: after a text [r] without [(] that is empty or
    ends with a character that is not of a word, the first match is the
    word before the [(]. *)
Lemma search_name (r nm rest : str) (pos : nat) :
  ~ In LPAREN r ->
  (forall c, last r = Some c -> is_word uni_alnum c = false) ->
  nm <> [] -> Forall word nm ->
  search_from (name_re uni_alnum) (r ++ nm ++ LPAREN :: rest) pos =
    Some {| m_start := pos + length r;
            m_text := nm ++ [LPAREN];
            m_groups := [nm] |}.
Proof.
  intros Hlp Hlast Hnm Hw. revert pos Hlp Hlast.
  induction r as [|c r IH]; intros pos Hlp Hlast.
  - destruct nm as [|c nm]; [congruence|]. inversion Hw as [|? ? Hc Hw']; subst.
    cbn [app search_from]. rewrite (rmatch_name_re_word _ _ Hc).
    rewrite drop_run_app by exact Hw'. cbn [drop_run].
    replace (is_word uni_alnum LPAREN) with false by reflexivity.
    rewrite N.eqb_refl.
    change (c :: nm ++ LPAREN :: rest) with ((c :: nm) ++ LPAREN :: rest).
    rewrite consumed_app.
    replace ((c :: nm) ++ LPAREN :: rest) with (((c :: nm) ++ [LPAREN]) ++ rest)
      by (rewrite <- app_assoc; reflexivity).
    rewrite consumed_app. cbn [length]. rewrite Nat.add_0_r. reflexivity.
  - assert (Hlp' : ~ In LPAREN r) by (intros H; apply Hlp; right; exact H).
    assert (Hnone : rmatch (name_re uni_alnum) (c :: r ++ nm ++ LPAREN :: rest) [] = []).
    { destruct (is_word uni_alnum c) eqn:Hc;
        [|apply rmatch_name_re_other; exact Hc].
      rewrite (rmatch_name_re_word _ _ Hc).
      destruct (drop_run_stops (is_word uni_alnum) r (nm ++ LPAREN :: rest))
        as (d & t & -> & Hin & Hd).
      - destruct (last r) as [z|] eqn:Hz.
        + apply Exists_exists. exists z. split.
          * eapply last_Some_elem_of, Hz.
          * apply Hlast. rewrite last_cons, Hz. reflexivity.
        + apply last_None in Hz as ->. specialize (Hlast c eq_refl). congruence.
      - destruct (N.eqb_spec LPAREN d) as [<-|]; [contradiction | reflexivity]. }
    cbn [app search_from]. rewrite Hnone.
    rewrite IH; [f_equal; f_equal; cbn; lia | exact Hlp' |].
    intros z Hz. apply Hlast. rewrite last_cons, Hz. reflexivity.
Qed.

End ConverterFacts.

Section ParamFacts.

Variable uni_alnum : N -> bool.

Abbreviation word := (fun c : N => is_word uni_alnum c = true).
Abbreviation tail_re := (RSeq (RGroup (RPlus (is_word uni_alnum))) REnd).

(** [(\w+)$] on a word. *)
Lemma rmatch_tail_re (nm : str) (g : list str) :
  nm <> [] -> Forall word nm ->
  exists l, rmatch tail_re nm g = (g ++ [nm], []) :: l.
Proof.
  intros Hnm Hw. destruct nm as [|c nm]; [congruence|].
  inversion Hw as [|? ? Hc Hw']; subst.
  rewrite rmatch_group_plus.
  destruct (plus_class_head _ c nm Hc) as (tl & -> & _).
  rewrite (drop_run_all _ _ Hw'). cbn [flat_map rmatch app].
  rewrite consumed_nil. eauto.
Qed.

(** [re.search] for a parameter: the type is what stands before the last
    space, the name the word after it. *)
Lemma search_param (ty nm : str) :
  ty <> [] -> Forall (fun c => dot c = true) ty ->
  nm <> [] -> Forall word nm ->
  re_search (param_re uni_alnum) (ty ++ SPACE :: nm) =
    Some {| m_start := 0; m_text := ty ++ SPACE :: nm; m_groups := [ty; nm] |}.
Proof.
  intros Hty Hdot Hnm Hw.
  assert (H : exists l,
    rmatch (param_re uni_alnum) (ty ++ SPACE :: nm) [] = ([ty; nm], []) :: l).
  { unfold param_re. rewrite rmatch_group_plus.
    destruct (plus_class_app dot ty (SPACE :: nm) Hdot) as (X & -> & HX).
    destruct (HX Hty) as [X' ->].
    rewrite (plus_class_cons dot SPACE nm eq_refl), <- app_assoc.
    rewrite !flat_map_app. cbn [flat_map app].
    rewrite flat_map_nil.
    2:{ apply List.Forall_forall. intros t Ht.
        destruct (plus_class_inv _ _ _ Ht) as (w & _ & _ & E).
        destruct t as [|d t]; [reflexivity|].
        assert (Hd : is_word uni_alnum d = true).
        { rewrite List.Forall_forall in Hw. apply Hw. rewrite E.
          apply in_or_app. right. left. reflexivity. }
        apply rmatch_seq_char_miss, (word_not uni_alnum); [reflexivity | exact Hd]. }
    destruct nm as [|d nm']; [congruence|].
    assert (Hd : is_word uni_alnum d = true) by (inversion Hw; assumption).
    rewrite rmatch_seq_char_miss
      by (apply (word_not uni_alnum); [reflexivity | exact Hd]).
    rewrite rmatch_seq_char_hit, consumed_app.
    destruct (rmatch_tail_re (d :: nm') [ty]) as [l ->]; [discriminate | exact Hw|].
    cbn [app]. eauto. }
  destruct H as [l H]. unfold re_search.
  destruct (ty ++ SPACE :: nm) eqn:E; cbn [search_from]; rewrite H;
    rewrite consumed_nil; reflexivity.
Qed.

(** A match of [(.+) (\w+)$] ends with a word, or with a newline. *)
Lemma rmatch_param_re_last (s : str) (g : list str) (m : list str * str) :
  In m (rmatch (param_re uni_alnum) s g) ->
  exists c, last s = Some c /\ (c = NL \/ is_word uni_alnum c = true).
Proof.
  unfold param_re. rewrite rmatch_group_plus. intros H.
  apply in_flat_map in H as (t1 & H1 & H).
  destruct (plus_class_inv _ _ _ H1) as (w1 & _ & _ & ->).
  destruct t1 as [|d t2]; [destruct H|].
  destruct (N.eqb_spec SPACE d) as [<-|Hd];
    [rewrite rmatch_seq_char_hit in H
    |rewrite rmatch_seq_char_miss in H by (apply N.eqb_neq, Hd); destruct H].
  rewrite rmatch_group_plus in H.
  apply in_flat_map in H as (t3 & H3 & H).
  destruct (plus_class_inv _ _ _ H3) as (w & Hne & Hw & ->).
  destruct (last w) as [c|] eqn:Hc; [|apply last_None in Hc; congruence].
  assert (Hcw : is_word uni_alnum c = true).
  { apply last_Some_elem_of, list_elem_of_In in Hc.
    rewrite List.Forall_forall in Hw. apply Hw, Hc. }
  destruct t3 as [|e [|? ?]]; cbn [rmatch] in H.
  - exists c. rewrite app_nil_r, last_app_cons, last_cons, Hc. auto.
  - destruct (N.eqb_spec e NL) as [->|]; [|destruct H].
    exists NL. rewrite last_app_cons, last_cons, last_snoc. auto.
  - destruct H.
Qed.

Lemma search_param_none (s : str) (pos : nat) :
  (forall c, last s = Some c -> c <> NL /\ is_word uni_alnum c = false) ->
  search_from (param_re uni_alnum) s pos = None.
Proof.
  revert pos. induction s as [|d s IH]; intros pos Hlast.
  - reflexivity.
  - cbn [search_from].
    destruct (rmatch (param_re uni_alnum) (d :: s) []) as [|m l] eqn:E.
    + apply IH. intros c Hc. apply Hlast. rewrite last_cons, Hc. reflexivity.
    + destruct (rmatch_param_re_last (d :: s) [] m) as (c & Hc & Hbad).
      { rewrite E. left. reflexivity. }
      destruct (Hlast c Hc) as [H1 H2]. destruct Hbad; congruence.
Qed.

End ParamFacts.

(** ** The loop of the parameter splitter *)

Lemma count_char_app (c : N) (a b : str) :
  count_char c (a ++ b) = count_char c a + count_char c b.
Proof. induction a as [|d a IH]; cbn; [reflexivity|]. rewrite IH. lia. Qed.

Lemma slice_shift (pre s : str) (a b : nat) :
  slice (pre ++ s) (a + length pre) (length pre + b) = slice s a b.
Proof.
  unfold slice. rewrite skipn_app.
  rewrite skipn_all2 by lia. cbn [app].
  replace (a + length pre - length pre) with a by lia.
  replace (length pre + b - (a + length pre)) with (b - a) by lia.
  reflexivity.
Qed.

Section Loop.

Variable uni_alnum : N -> bool.

(** Characters that stand before the last one and are no comma outside
    brackets only move the two counters. *)
Lemma hp_loop_inside (paramstr q rest : str) (idx : nat) (st : hp_state) :
  (forall a b, q = a ++ COMMA :: b ->
     lcarrot_count st + count_char LT a <> rcarrot_count st + count_char GT a) ->
  idx + length q <= length paramstr - 1 ->
  hp_loop uni_alnum paramstr (q ++ rest) idx st =
    hp_loop uni_alnum paramstr rest (idx + length q)
      {| lcarrot_count := lcarrot_count st + count_char LT q;
         rcarrot_count := rcarrot_count st + count_char GT q;
         split_idx := split_idx st;
         params := params st |}.
Proof.
  revert idx st. induction q as [|c q IH]; intros idx st Hc Hidx.
  - cbn. rewrite !Nat.add_0_r. destruct st; reflexivity.
  - cbn [app hp_loop length]. cbn [length] in Hidx.
    assert (Hlast : (idx =? length paramstr - 1) = false) by (apply Nat.eqb_neq; lia).
    unfold hp_body at 1. rewrite Hlast.
    destruct (N.eqb_spec c LT) as [->|HLT].
    { cbn [ebind]. rewrite IH.
      - cbn. repeat (f_equal; try lia).
      - intros a b E. specialize (Hc (LT :: a) b). cbn in Hc |- *.
        rewrite E in Hc. specialize (Hc eq_refl). lia.
      - lia. }
    destruct (N.eqb_spec c GT) as [->|HGT].
    { cbn [ebind]. rewrite IH.
      - cbn. repeat (f_equal; try lia).
      - intros a b E. specialize (Hc (GT :: a) b). cbn in Hc |- *.
        rewrite E in Hc. specialize (Hc eq_refl). lia.
      - lia. }
    assert (Hskip : (N.eqb c COMMA
              && (lcarrot_count st =? rcarrot_count st) || false) = false).
    { destruct (N.eqb_spec c COMMA) as [->|]; [|reflexivity].
      specialize (Hc [] q eq_refl). cbn in Hc.
      rewrite orb_false_r. cbn. apply Nat.eqb_neq. lia. }
    rewrite Hskip. cbn [ebind]. rewrite IH.
    + cbn. apply N.eqb_neq in HLT, HGT. rewrite HLT, HGT. cbn.
      repeat (f_equal; try lia).
    + intros a b E. specialize (Hc (c :: a) b). cbn in Hc.
      apply N.eqb_neq in HLT, HGT. rewrite HLT, HGT, E in Hc. cbn in Hc.
      apply Hc. reflexivity.
    + lia.
Qed.

End Loop.

Section Composition.

Variable uni_alnum : N -> bool.

Abbreviation word := (fun c : N => is_word uni_alnum c = true).

Lemma count_char_word (c : N) (w : str) :
  is_word uni_alnum c = false -> Forall word w -> count_char c w = 0.
Proof.
  intros Hc. induction 1 as [|d w Hd _ IH]; [reflexivity|].
  cbn. rewrite IH, N.eqb_sym, (word_not uni_alnum c d Hc Hd). reflexivity.
Qed.

(** The loop on a text that stands inside a longer one, after complete
    parameters, goes as on the text alone. *)
Lemma hp_body_shift (pre rest : str) (k : nat) (ps : list str)
    (st : hp_state) (i : nat) (c : N) :
  i < length rest ->
  hp_body uni_alnum (pre ++ rest) (hp_shift k (length pre) ps st) (length pre + i) c =
    let* st' := hp_body uni_alnum rest st i c in
    Ok (hp_shift k (length pre) ps st').
Proof.
  intros Hi. unfold hp_body.
  replace (length pre + i =? length (pre ++ rest) - 1) with (i =? length rest - 1).
  2:{ rewrite length_app.
      destruct (Nat.eqb_spec i (length rest - 1));
        symmetry; [apply Nat.eqb_eq | apply Nat.eqb_neq]; lia. }
  destruct (N.eqb c LT); [cbn; unfold hp_shift; cbn; repeat (f_equal; try lia)|].
  destruct (N.eqb c GT); [cbn; unfold hp_shift; cbn; repeat (f_equal; try lia)|].
  cbn [hp_shift lcarrot_count rcarrot_count split_idx params].
  replace (lcarrot_count st + k =? rcarrot_count st + k)
    with (lcarrot_count st =? rcarrot_count st).
  2:{ destruct (Nat.eqb_spec (lcarrot_count st) (rcarrot_count st));
        symmetry; [apply Nat.eqb_eq | apply Nat.eqb_neq]; lia. }
  destruct (_ || _); [|reflexivity].
  rewrite <- Nat.add_assoc, slice_shift.
  destruct (re_search _ _) as [m|]; [|reflexivity].
  destruct (m_groups m) as [|paramtype [|paramname [|? ?]]]; try reflexivity.
  destruct (type_conversion paramtype) as [t|e]; [|reflexivity].
  cbn. unfold hp_shift. cbn. rewrite <- app_assoc. repeat (f_equal; try lia).
Qed.

Lemma hp_loop_shift (pre rest : str) (k : nat) (ps : list str)
    (suffix : str) (st : hp_state) (i : nat) :
  i + length suffix = length rest ->
  hp_loop uni_alnum (pre ++ rest) suffix (length pre + i) (hp_shift k (length pre) ps st) =
    let* st' := hp_loop uni_alnum rest suffix i st in
    Ok (hp_shift k (length pre) ps st').
Proof.
  revert st i. induction suffix as [|c suffix IH]; intros st i Hi; [reflexivity|].
  cbn [hp_loop]. cbn [length] in Hi. rewrite hp_body_shift by lia.
  destruct (hp_body uni_alnum rest st i c) as [st1|e]; [|reflexivity].
  cbn [ebind]. rewrite <- IH by lia. f_equal. lia.
Qed.

(** A comma outside brackets, or the last character, ends a parameter. *)
Lemma hp_body_cut (paramstr : str) (st : hp_state) (idx : nat) (c : N) (ty nm : str) :
  N.eqb c LT = false -> N.eqb c GT = false ->
  let last := idx =? length paramstr - 1 in
  N.eqb c COMMA && (lcarrot_count st =? rcarrot_count st) || last = true ->
  slice paramstr (split_idx st) (idx + (if last then 1 else 0)) = ty ++ SPACE :: nm ->
  ty <> [] -> Forall (fun c => dot c = true) ty ->
  nm <> [] -> Forall word nm ->
  hp_body uni_alnum paramstr st idx c =
    let* t := type_conversion ty in
    Ok {| lcarrot_count := lcarrot_count st;
          rcarrot_count := rcarrot_count st;
          split_idx := idx + 2;
          params := params st ++ [rename nm ++ py ": " ++ t] |}.
Proof.
  intros HLT HGT last Hcut Hparam Hty Hdot Hnm Hw. unfold hp_body.
  rewrite HLT, HGT. fold last. rewrite Hcut, Hparam.
  rewrite search_param by assumption. reflexivity.
Qed.

Lemma comma_in_type (ty nm a b : str) :
  Forall word nm -> ty ++ SPACE :: nm = a ++ COMMA :: b ->
  exists b', ty = a ++ COMMA :: b'.
Proof.
  intros Hw E. apply app_eq_app in E as [l [[E1 E2] | [E1 E2]]].
  - destruct l as [|d l]; [discriminate|]. injection E2 as <- _. eauto.
  - destruct l as [|d l]; [discriminate|]. injection E2 as <- E2.
    exfalso. apply (word_not_in uni_alnum COMMA nm); [reflexivity | exact Hw|].
    rewrite E2. apply in_or_app. right. left. reflexivity.
Qed.

Lemma handle_params_one_aux (ty nm : str) :
  ty <> [] -> Forall (fun c => dot c = true) ty ->
  nm <> [] -> Forall word nm ->
  commas_inside ty ->
  handle_params uni_alnum (ty ++ SPACE :: nm) =
    let* t := type_conversion ty in
    Ok [rename nm ++ py ": " ++ t].
Proof.
  intros Hty Hdot Hnm Hw Hin.
  destruct nm as [|z nm _] using rev_ind; [congruence|].
  apply Forall_app in Hw as [Hw Hz]. inversion Hz as [|? ? Hz' _]; subst.
  unfold handle_params.
  set (paramstr := ty ++ SPACE :: nm ++ [z]).
  replace paramstr with ((ty ++ SPACE :: nm) ++ [z]) at 2
    by (unfold paramstr; rewrite <- app_assoc; reflexivity).
  assert (Hlen : length paramstr = length (ty ++ SPACE :: nm) + 1).
  { unfold paramstr. rewrite !length_app. cbn [length]. rewrite length_app. cbn. lia. }
  rewrite hp_loop_inside.
  - cbn [hp_loop Nat.add]. rewrite (hp_body_cut _ _ _ _ ty (nm ++ [z])).
    + destruct (type_conversion ty); reflexivity.
    + rewrite N.eqb_sym. apply (word_not uni_alnum); [reflexivity | exact Hz'].
    + rewrite N.eqb_sym. apply (word_not uni_alnum); [reflexivity | exact Hz'].
    + replace (length (ty ++ SPACE :: nm) =? length paramstr - 1) with true
        by (symmetry; apply Nat.eqb_eq; lia).
      apply orb_true_r.
    + replace (length (ty ++ SPACE :: nm) =? length paramstr - 1) with true
        by (symmetry; apply Nat.eqb_eq; lia).
      cbn [split_idx hp_init]. rewrite <- Hlen. unfold slice.
      rewrite Nat.sub_0_r. apply firstn_all.
    + exact Hty.
    + exact Hdot.
    + destruct nm; discriminate.
    + apply Forall_app. split; [exact Hw | exact Hz].
  - intros a b E. cbn. apply comma_in_type in E as [b' ->]; [|exact Hw].
    apply (Hin a b'). reflexivity.
  - lia.
Qed.

Lemma handle_params_cons_aux (ty nm rest : str) :
  ty <> [] -> Forall (fun c => dot c = true) ty ->
  nm <> [] -> Forall word nm ->
  commas_inside ty -> balanced ty -> rest <> [] ->
  handle_params uni_alnum (ty ++ SPACE :: nm ++ COMMA :: SPACE :: rest) =
    let* t := type_conversion ty in
    let* ps := handle_params uni_alnum rest in
    Ok ((rename nm ++ py ": " ++ t) :: ps).
Proof.
  intros Hty Hdot Hnm Hw Hin Hbal Hrest.
  set (p := ty ++ SPACE :: nm).
  set (k := count_char LT p).
  assert (Ep : ty ++ SPACE :: nm ++ COMMA :: SPACE :: rest = (p ++ [COMMA; SPACE]) ++ rest).
  { unfold p. rewrite <- !app_assoc. reflexivity. }
  assert (HkL : count_char LT p = k) by reflexivity.
  assert (HkG : count_char GT p = k).
  { unfold k, p. rewrite !count_char_app. cbn [count_char].
    rewrite !(count_char_word _ nm) by (try reflexivity; exact Hw).
    cbn. rewrite Hbal. reflexivity. }
  unfold handle_params. rewrite Ep.
  set (paramstr := (p ++ [COMMA; SPACE]) ++ rest).
  assert (Hlen : length paramstr = length p + 2 + length rest).
  { unfold paramstr. rewrite !length_app. reflexivity. }
  assert (Hr : 0 < length rest) by (destruct rest; [congruence | cbn; lia]).
  replace paramstr with (p ++ COMMA :: SPACE :: rest) at 2
    by (unfold paramstr; rewrite <- app_assoc; reflexivity).
  rewrite hp_loop_inside.
  2:{ intros a b E. cbn. apply comma_in_type in E as [b' ->]; [|exact Hw].
      apply (Hin a b'). reflexivity. }
  2:{ lia. }
  cbn [hp_loop Nat.add hp_init lcarrot_count rcarrot_count split_idx params].
  rewrite HkL, HkG.
  rewrite (hp_body_cut _ _ _ _ ty nm).
  - destruct (type_conversion ty) as [t|e]; [|reflexivity]. cbn [ebind].
    unfold hp_body at 1.
    replace (S (length p) =? length paramstr - 1) with false
      by (symmetry; apply Nat.eqb_neq; lia).
    cbn [N.eqb SPACE LT GT COMMA Pos.eqb andb orb ebind].
    replace (S (S (length p))) with (length (p ++ [COMMA; SPACE]) + 0)
      by (rewrite length_app; cbn; lia).
    replace (length p + 2) with (length (p ++ [COMMA; SPACE]))
      by (rewrite length_app; reflexivity).
    pose proof (hp_loop_shift (p ++ [COMMA; SPACE]) rest k
                  [rename nm ++ py ": " ++ t] rest hp_init 0 eq_refl) as Hs.
    match goal with
    | |- ebind _ ?K = ?R =>
        change (ebind (hp_loop uni_alnum ((p ++ [COMMA; SPACE]) ++ rest) rest
                         (length (p ++ [COMMA; SPACE]) + 0)
                         (hp_shift k (length (p ++ [COMMA; SPACE]))
                            [rename nm ++ py ": " ++ t] hp_init)) K = R)
    end.
    rewrite Hs.
    destruct (hp_loop uni_alnum rest rest 0 hp_init); reflexivity.
  - reflexivity.
  - reflexivity.
  - cbn [lcarrot_count rcarrot_count]. rewrite Nat.eqb_refl. reflexivity.
  - replace (length p =? length paramstr - 1) with false
      by (symmetry; apply Nat.eqb_neq; lia).
    cbn [split_idx]. rewrite Nat.add_0_r. unfold paramstr.
    rewrite <- app_assoc. apply slice_prefix.
  - exact Hty.
  - exact Hdot.
  - exact Hnm.
  - exact Hw.
Qed.

End Composition.

(** ** The parameter splitter *)

Lemma last_slice (s : str) (a b : nat) (x c : N) :
  s !! b = Some x -> last (slice s a (b + 1)) = Some c -> c = x.
Proof.
  intros Hx. destruct (le_lt_dec a b) as [Hab | Hab].
  - rewrite (slice_snoc s a b x Hab Hx), last_snoc. congruence.
  - unfold slice. replace (b + 1 - a) with 0 by lia. discriminate.
Qed.

Section Splitter.

Variable uni_alnum : N -> bool.

(** C3: [handle_params] on the parameters of the claim gives the two
    renamed parameters, the comma inside [Map<...>] making no third.  In
    general a comma met while the counts of [<] and [>] differ adds no
    parameter, and a comma met while they are equal ends the parameter read
    since the last boundary, which is split at its last space, renamed and
    type-mapped.  So a parameter whose commas all stand inside brackets
    comes out as one parameter, alone or before [, ] and further parameters.
    The names [str], [len], [map] become [string], [length], [mapping];
    other names are kept. *)
Theorem handle_params_boundaries :
  handle_params uni_alnum (py "Map<String, Integer> map, int len") =
    Ok [py "mapping: Dict[str, int]"; py "length: int"] /\
  (forall (paramstr : str) (st st' : hp_state) (idx : nat),
      paramstr !! idx = Some COMMA ->
      lcarrot_count st <> rcarrot_count st ->
      hp_body uni_alnum paramstr st idx COMMA = Ok st' ->
      st' = st) /\
  (forall (paramstr : str) (st : hp_state) (idx : nat) (ty nm : str),
      lcarrot_count st = rcarrot_count st ->
      idx <> length paramstr - 1 ->
      slice paramstr (split_idx st) idx = ty ++ SPACE :: nm ->
      ty <> [] -> Forall (fun c => dot c = true) ty ->
      nm <> [] -> Forall (fun c => is_word uni_alnum c = true) nm ->
      hp_body uni_alnum paramstr st idx COMMA =
        let* t := type_conversion ty in
        Ok {| lcarrot_count := lcarrot_count st;
              rcarrot_count := rcarrot_count st;
              split_idx := idx + 2;
              params := params st ++ [rename nm ++ py ": " ++ t] |}) /\
  (forall ty nm : str,
      ty <> [] -> Forall (fun c => dot c = true) ty ->
      nm <> [] -> Forall (fun c => is_word uni_alnum c = true) nm ->
      commas_inside ty ->
      handle_params uni_alnum (ty ++ py " " ++ nm) =
        let* t := type_conversion ty in
        Ok [rename nm ++ py ": " ++ t]) /\
  (forall ty nm rest : str,
      ty <> [] -> Forall (fun c => dot c = true) ty ->
      nm <> [] -> Forall (fun c => is_word uni_alnum c = true) nm ->
      commas_inside ty -> balanced ty -> rest <> [] ->
      handle_params uni_alnum (ty ++ py " " ++ nm ++ py ", " ++ rest) =
        let* t := type_conversion ty in
        let* ps := handle_params uni_alnum rest in
        Ok ((rename nm ++ py ": " ++ t) :: ps)) /\
  rename (py "str") = py "string" /\
  rename (py "len") = py "length" /\
  rename (py "map") = py "mapping" /\
  (forall n : str,
      n <> py "str" -> n <> py "len" -> n <> py "map" -> rename n = n).
Proof.
  split; [vm_compute; reflexivity|].
  split; [|split; [|split; [|split]]].
  - intros paramstr st st' idx Hidx Hne. unfold hp_body.
    change (N.eqb COMMA LT) with false. change (N.eqb COMMA GT) with false.
    change (N.eqb COMMA COMMA) with true. cbv iota. cbn [andb].
    apply Nat.eqb_neq in Hne. rewrite Hne. cbn [orb].
    destruct (idx =? length paramstr - 1); [|congruence].
    unfold re_search. rewrite search_param_none; [discriminate|].
    intros c Hc. apply (last_slice _ _ _ _ _ Hidx) in Hc as ->.
    split; [discriminate | reflexivity].
  - intros paramstr st idx ty nm Heq Hidx Hparam Hty Hdot Hnm Hw.
    apply Nat.eqb_eq in Heq. apply Nat.eqb_neq in Hidx.
    apply hp_body_cut; try assumption; try reflexivity.
    + cbv zeta. rewrite Heq. reflexivity.
    + cbv zeta. rewrite Hidx, Nat.add_0_r. exact Hparam.
  - intros ty nm. apply handle_params_one_aux.
  - intros ty nm rest. apply handle_params_cons_aux.
  - repeat split; try reflexivity.
    intros n H1 H2 H3. unfold rename.
    rewrite !str_eqb_neq by assumption. reflexivity.
Qed.

End Splitter.

(** The places of a comma in a literal text, one after the other. *)
Ltac comma_places E a :=
  vm_compute in E;
  repeat (destruct a as [|? a];
          [ first [ discriminate E | vm_compute; lia ]
          | injection E as <- E ]);
  destruct a; discriminate E.

Lemma handle_params_boundaries_witness :
  hp_body (fun _ => false) (py "Map<String, Integer> map, int len")
    {| lcarrot_count := 1; rcarrot_count := 0; split_idx := 0; params := [] |}
    10 COMMA
  = Ok {| lcarrot_count := 1; rcarrot_count := 0; split_idx := 0; params := [] |} /\
  hp_body (fun _ => false) (py "Map<String, Integer> map, int len")
    {| lcarrot_count := 1; rcarrot_count := 1; split_idx := 0; params := [] |}
    24 COMMA
  = Ok {| lcarrot_count := 1; rcarrot_count := 1; split_idx := 26;
          params := [py "mapping: Dict[str, int]"] |} /\
  handle_params (fun _ => false) (py "int len") = Ok [py "length: int"] /\
  handle_params (fun _ => false) (py "Map<String, Integer> map, int len") =
    (let* ps := handle_params (fun _ => false) (py "int len") in
     Ok (py "mapping: Dict[str, int]" :: ps)) /\
  rename (py "weekday") = py "weekday".
Proof.
  destruct (handle_params_boundaries (fun _ => false))
    as (_ & G1 & G2 & G3 & G4 & _ & _ & _ & G5).
  split; [|split; [|split; [|split]]].
  - destruct (hp_body (fun _ => false) (py "Map<String, Integer> map, int len")
      {| lcarrot_count := 1; rcarrot_count := 0; split_idx := 0; params := [] |}
      10 COMMA) as [st'|e] eqn:E.
    + f_equal. eapply G1; [ | | exact E]; [reflexivity | cbn; lia].
    + vm_compute in E. discriminate.
  - apply (G2 (py "Map<String, Integer> map, int len")
      {| lcarrot_count := 1; rcarrot_count := 1; split_idx := 0; params := [] |}
      24 (py "Map<String, Integer>") (py "map")).
    + reflexivity.
    + cbn. lia.
    + reflexivity.
    + discriminate.
    + vm_compute. repeat constructor.
    + discriminate.
    + vm_compute. repeat constructor.
  - apply (G3 (py "int") (py "len")).
    + discriminate.
    + vm_compute. repeat constructor.
    + discriminate.
    + vm_compute. repeat constructor.
    + intros a b E. comma_places E a.
  - apply (G4 (py "Map<String, Integer>") (py "map") (py "int len")).
    + discriminate.
    + vm_compute. repeat constructor.
    + discriminate.
    + vm_compute. repeat constructor.
    + intros a b E. comma_places E a.
    + reflexivity.
    + discriminate.
  - apply G5; discriminate.
Defined.

(** ** Empty inputs *)

Lemma guard_alone_has_no_body : ~ guard_has_body GUARD.
Proof.
  intros (body & E & H).
  assert (B : body = []).
  { apply (app_inv_head GUARD). rewrite <- E. symmetry. apply app_nil_r. }
  subst body. inversion H.
Qed.

Lemma guard_with_assert_has_body (i : str) (rest : str) :
  guard_has_body (GUARD ++ ([NL] ++ py "    assert " ++ i) ++ rest).
Proof.
  eexists. split; [reflexivity|].
  cbn. do 5 apply Exists_cons_tl. apply Exists_cons_hd. reflexivity.
Qed.

(** C8: no parameters and no examples raise nothing: [handle_params('')]
    is the empty list, and [make_asserts([])] is the guard line alone. No
    statement is under that guard, so what [make_asserts([])] returns is not
    a block that Python parses. *)
Theorem empty_inputs (uni_alnum : N -> bool) :
  handle_params uni_alnum (py "") = Ok [] /\
  make_asserts [] = Ok (py "if __name__ == '__main__':") /\
  ~ guard_has_body (py "if __name__ == '__main__':").
Proof.
  split; [reflexivity|]. split; [reflexivity|]. exact guard_alone_has_no_body.
Qed.

(** ** The declaration *)

(** A character that does not occur in a literal text. *)
Ltac not_in_literal :=
  let K := fresh "K" in
  vm_compute; intros K; repeat (destruct K as [K|K]; [discriminate|]); exact K.

(** C1 fails on the code: the constructor drops the text up to the first
    space, which, for a declaration that begins with its return type, is
    the return type; the stub of [int foo(int a)] has an empty annotation. *)
Lemma return_type_dropped :
  (forall uni_alnum : N -> bool,
      (let* c := Converter_init (py "int foo(int a)") in convert uni_alnum c) =
        Ok (py "def foo(a: int) -> :" ++ [NL] ++ py "    pass")) /\
  ~ exists uni_alnum : N -> bool, return_type_as_claimed uni_alnum.
Proof.
  split; [intros u; vm_compute; reflexivity|].
  intros [u H].
  specialize (H (py "int") (py " ") (py "foo") (py "int a") [py "a: int"] (py "int")).
  assert (E : (let* c := Converter_init (py "int foo(int a)") in convert u c) =
              Ok (py "def foo(a: int) -> int:" ++ [NL] ++ py "    pass")).
  { apply H.
    - discriminate.
    - not_in_literal.
    - not_in_literal.
    - not_in_literal.
    - discriminate.
    - repeat constructor.
    - discriminate.
    - vm_compute. repeat constructor.
    - not_in_literal.
    - vm_compute. reflexivity.
    - vm_compute. reflexivity. }
  vm_compute in E. discriminate.
Qed.

Section Declaration.

Variable uni_alnum : N -> bool.

(** C1, amended: for a declaration that is a first token without space
    (the modifier [public] of the site), one space, a text [r] that is empty
    or ends with a character that is not of a word, the name and the
    parenthesised parameters, the constructor drops the first token and its
    space, and [convert] maps [r], trimmed, as the return type and renders
    the stub with it. *)
Theorem convert_return_type (m r nm ps rest : str) :
  ~ In SPACE m -> ~ In RPAREN m ->
  ~ In LPAREN r -> ~ In RPAREN r ->
  (forall c, last r = Some c -> is_word uni_alnum c = false) ->
  nm <> [] -> Forall (fun c => is_word uni_alnum c = true) nm ->
  ~ In RPAREN ps ->
  (let* c := Converter_init
               (m ++ [SPACE] ++ r ++ nm ++ [LPAREN] ++ ps ++ [RPAREN] ++ rest) in
   convert uni_alnum c) =
    (let* rettype := type_conversion (strip r) in
     let* params := handle_params uni_alnum ps in
     Ok (py "def " ++ nm ++ py "(" ++ join (py ", ") params ++ py ") -> "
           ++ rettype ++ py ":" ++ [NL] ++ py "    pass")).
Proof.
  intros Hm1 Hm2 Hr1 Hr2 Hlast Hnm Hw Hps.
  assert (Hn1 : ~ In LPAREN nm) by (apply (word_not_in uni_alnum); [reflexivity | exact Hw]).
  assert (Hn2 : ~ In RPAREN nm) by (apply (word_not_in uni_alnum); [reflexivity | exact Hw]).
  set (d := r ++ nm ++ [LPAREN] ++ ps ++ [RPAREN]).
  assert (Hinit : Converter_init (m ++ [SPACE] ++ r ++ nm ++ [LPAREN] ++ ps ++ [RPAREN] ++ rest)
                  = Ok {| dec := d |}).
  { unfold Converter_init.
    cbn [app]. rewrite (index_skip SPACE m _ Hm1). cbn [ebind].
    replace (m ++ SPACE :: r ++ nm ++ LPAREN :: ps ++ RPAREN :: rest)
      with ((m ++ SPACE :: r ++ nm ++ LPAREN :: ps) ++ RPAREN :: rest)
      by (rewrite <- !app_assoc; cbn [app]; rewrite <- !app_assoc; reflexivity).
    rewrite index_skip.
    2:{ rewrite !in_app_iff. cbn [In]. rewrite !in_app_iff. cbn [In].
        intros [?|[?|[?|[?|[?|?]]]]]; try contradiction; discriminate. }
    cbn [ebind]. f_equal. f_equal.
    replace ((m ++ SPACE :: r ++ nm ++ LPAREN :: ps) ++ RPAREN :: rest)
      with ((m ++ [SPACE]) ++ d ++ rest)
      by (unfold d; rewrite <- !app_assoc; cbn [app]; rewrite <- !app_assoc; reflexivity).
    replace (length m + 1) with (length (m ++ [SPACE])) by (rewrite length_app; reflexivity).
    replace (length (m ++ SPACE :: r ++ nm ++ LPAREN :: ps) + 1)
      with (length (m ++ [SPACE]) + length d).
    - apply slice_middle.
    - unfold d. rewrite !length_app. cbn [length]. rewrite !length_app. cbn [length]. lia. }
  rewrite Hinit. cbn [ebind]. unfold convert. cbn [dec].
  unfold re_search, d. cbn [app].
  rewrite (search_name uni_alnum r nm (ps ++ [RPAREN]) 0 Hr1 Hlast Hnm Hw).
  cbn [m_start m_groups nth Nat.add].
  rewrite slice_prefix.
  destruct (type_conversion (strip r)) as [rettype|e]; [|reflexivity]. cbn [ebind].
  replace (r ++ nm ++ LPAREN :: ps ++ [RPAREN])
    with ((r ++ nm) ++ LPAREN :: ps ++ [RPAREN]) by (rewrite <- app_assoc; reflexivity).
  rewrite index_skip by (rewrite in_app_iff; tauto). cbn [ebind].
  replace ((r ++ nm) ++ LPAREN :: ps ++ [RPAREN])
    with (((r ++ nm) ++ LPAREN :: ps) ++ [RPAREN])
    by (rewrite <- !app_assoc; reflexivity).
  rewrite index_skip.
  2:{ rewrite !in_app_iff. cbn [In]. intros [[?|?]|[?|?]]; try contradiction; discriminate. }
  cbn [ebind].
  replace (((r ++ nm) ++ LPAREN :: ps) ++ [RPAREN])
    with (((r ++ nm) ++ [LPAREN]) ++ ps ++ [RPAREN])
    by (rewrite <- !app_assoc; reflexivity).
  replace (length (r ++ nm) + 1) with (length ((r ++ nm) ++ [LPAREN]))
    by (rewrite (length_app _ [LPAREN]); reflexivity).
  replace (length ((r ++ nm) ++ LPAREN :: ps))
    with (length ((r ++ nm) ++ [LPAREN]) + length ps)
    by (rewrite !length_app; cbn [length]; lia).
  rewrite slice_middle. reflexivity.
Qed.

End Declaration.

Lemma convert_return_type_witness :
  (let* c := Converter_init (py "public int foo(int a) {") in
   convert (fun _ => false) c) =
    Ok (py "def foo(a: int) -> int:" ++ [NL] ++ py "    pass").
Proof.
  apply (convert_return_type (fun _ => false)
           (py "public") (py "int ") (py "foo") (py "int a") (py " {")).
  - not_in_literal.
  - not_in_literal.
  - not_in_literal.
  - not_in_literal.
  - intros c. vm_compute. intros [= <-]. reflexivity.
  - discriminate.
  - vm_compute. repeat constructor.
  - not_in_literal.
Defined.

(** ** The assembled text *)

Lemma assemble_layout (doc decstr asserts : str) :
  assemble doc (import_line decstr) decstr asserts = layout doc decstr asserts.
Proof.
  unfold assemble, layout, import_line, import_lines.
  destruct (contains decstr (py "List")), (contains decstr (py "Dict"));
    cbn; rewrite <- ?app_assoc; reflexivity.
Qed.

(** C6 fails on the code: the text made for a page has two blank lines
    before the stub, not the one of the claim. *)
Lemma layout_not_as_claimed :
  let self := Problem_init (py "https://codingbat.com/prob/p187868") in
  let self' := fst (_process (fun _ => false) (fun _ => sleepIn_page) self []) in
  text self' =
    Some (join [NL]
            [sleepIn_doc; []; []; sleepIn_stub; []; []; sleepIn_asserts; []]) /\
  text self' <> Some (layout_as_claimed sleepIn_doc sleepIn_stub sleepIn_asserts).
Proof.
  split.
  - vm_compute. reflexivity.
  - intros E. vm_compute in E. discriminate.
Qed.

(** C6, amended: the text [_process] stores is the docstring block, then the
    import line if the stub contains [List] or [Dict] (one line, [List]
    before [Dict]), then two blank lines, the stub, two blank lines, the
    assertion block, and a final newline. *)
Theorem process_layout (uni_alnum : N -> bool) (soup : str -> Scraped)
    (self self' : Problem) (response_text : str) :
  _process uni_alnum soup self response_text = (self', Ok tt) ->
  exists n decl desc decstr asserts,
    last (sc_names (soup response_text)) = Some n /\
    sc_decl (soup response_text) = Some decl /\
    sc_desc (soup response_text) = Some desc /\
    (let* c := Converter_init decl in convert uni_alnum c) = Ok decstr /\
    make_asserts (sc_examples (soup response_text)) = Ok asserts /\
    self' = {| url := url self;
               name := Some n;
               text := Some (layout (doc_block (strip desc)) decstr asserts) |}.
Proof.
  unfold _process. set (page := soup response_text).
  destruct (last (sc_names page)) as [n|]; [|discriminate].
  destruct (sc_decl page) as [decl|]; [|discriminate].
  cbn [get_text ebind].
  destruct (Converter_init decl) as [c|] eqn:Ec; [|discriminate].
  cbn [ebind].
  destruct (convert uni_alnum c) as [decstr|] eqn:Ed; [|discriminate].
  cbn [ebind].
  destruct (make_asserts (sc_examples page)) as [asserts|]; [|discriminate].
  cbn [ebind].
  destruct (sc_desc page) as [desc|]; [|discriminate].
  cbn [get_text ebind url name].
  intros [= <-].
  exists n, decl, desc, decstr, asserts.
  rewrite assemble_layout, Ec. repeat split; try reflexivity. exact Ed.
Qed.

Lemma process_layout_witness :
  exists n decl desc decstr asserts,
    last (sc_names sleepIn_page) = Some n /\
    sc_decl sleepIn_page = Some decl /\
    sc_desc sleepIn_page = Some desc /\
    (let* c := Converter_init decl in convert (fun _ => false) c) = Ok decstr /\
    make_asserts (sc_examples sleepIn_page) = Ok asserts /\
    fst (_process (fun _ => false) (fun _ => sleepIn_page)
           (Problem_init (py "https://codingbat.com/prob/p187868")) [])
      = {| url := py "https://codingbat.com/prob/p187868";
           name := Some n;
           text := Some (layout (doc_block (strip desc)) decstr asserts) |}.
Proof.
  apply (process_layout (fun _ => false) (fun _ => sleepIn_page)
           (Problem_init (py "https://codingbat.com/prob/p187868")) _ []).
  vm_compute. reflexivity.
Defined.

(** ** Processing a problem twice *)

(** C10: when [text] is already set, [process] and [async_process] return
    [None] at once: nothing is requested and no attribute changes. *)
Theorem process_again (uni_alnum : N -> bool) (soup : str -> Scraped)
    (self : Problem) (w : World) :
  text self <> None ->
  process uni_alnum soup self w = (w, (self, Ok tt)) /\
  async_process uni_alnum soup self w = (w, (self, Ok tt)).
Proof.
  intros H. unfold process, async_process.
  destruct (text self); [split; reflexivity | congruence].
Qed.

Lemma process_again_witness :
  let self := {| url := py "https://codingbat.com/prob/p187868";
                 name := Some (py "sleepIn");
                 text := Some (py "pass") |} in
  let w := {| net := fun _ => Raise OSError; requested := [] |} in
  process (fun _ => false) (fun _ => Build_Scraped [] None [] None) self w
    = (w, (self, Ok tt)) /\
  async_process (fun _ => false) (fun _ => Build_Scraped [] None [] None) self w
    = (w, (self, Ok tt)).
Proof.
  intros self w. apply (process_again _ _ self w). discriminate.
Defined.

(** ** Writing a category *)

Lemma raised_builtin (e : io_exn) (msg : str) : raised e <> ProcessingError msg.
Proof. destruct e; discriminate. Qed.

Section WriteRaises.

Variable FS : Type.
Variable fs_open : str -> FS -> FS * option io_exn.
Variable fs_store : str -> str -> FS -> FS * option io_exn.
Variable fs_close : str -> FS -> FS * option io_exn.

Lemma close_after_raises path e0 fs fs' e :
  close_after fs_close path e0 fs = (fs', Raise e) ->
  e = e0 \/ exists e', e = raised e'.
Proof.
  unfold close_after. destruct (fs_close path fs) as [fs1 [e1|]];
    intros [= <- <-]; eauto.
Qed.

Lemma write_file_raises path t fs fs' e :
  write_file fs_open fs_store fs_close path t fs = (fs', Raise e) ->
  e = TypeError \/ e = UnicodeEncodeError \/ exists e', e = raised e'.
Proof.
  unfold write_file. destruct (fs_open path fs) as [fs1 [e1|]].
  - intros [= <- <-]. eauto.
  - destruct t as [t|].
    + destruct (encodable t).
      * destruct (fs_store path t fs1) as [fs2 [e2|]]; [|discriminate].
        intros [= <- <-]. eauto.
      * intros H. apply close_after_raises in H as [->|H]; auto.
    + intros H. apply close_after_raises in H as [->|H]; auto.
Qed.

Lemma write_loop_raises self probs fs fs' e :
  write_loop fs_open fs_store fs_close self probs fs = (fs', Raise e) ->
  e = TypeError \/ e = UnicodeEncodeError \/ exists e', e = raised e'.
Proof.
  revert fs. induction probs as [|prob probs IH]; intros fs; cbn [write_loop].
  - discriminate.
  - destruct (write_file _ _ _ _ _ _) as [fs1 [[]|e1]] eqn:E.
    + apply IH.
    + intros [= <- <-]. eapply write_file_raises, E.
Qed.

End WriteRaises.

(** C9: [write] raises [ProcessingError] exactly when [processed] is
    [False], and then no file is written: the file system is as it was,
    none of its steps having been taken; when [processed] is [True] it
    does not raise it, whatever the file system does. *)
Theorem write_processing_error (FS : Type)
    (fs_open : str -> FS -> FS * option io_exn)
    (fs_store : str -> str -> FS -> FS * option io_exn)
    (fs_close : str -> FS -> FS * option io_exn)
    (self : CategoryPage) (fs : FS) :
  ((exists msg,
      snd (write fs_open fs_store fs_close self fs) = Raise (ProcessingError msg))
     <-> processed self = false) /\
  (processed self = false ->
     write fs_open fs_store fs_close self fs
       = (fs, Raise (ProcessingError (cp_name self ++ py " has not been processed")))) /\
  (processed self = true ->
     forall msg,
       snd (write fs_open fs_store fs_close self fs) <> Raise (ProcessingError msg)).
Proof.
  unfold write. destruct (processed self) eqn:P.
  - assert (N : forall msg,
      snd (write_loop fs_open fs_store fs_close self (problems self) fs)
        <> Raise (ProcessingError msg)).
    { intros msg E.
      destruct (write_loop fs_open fs_store fs_close self (problems self) fs)
        as [fs' r] eqn:L.
      cbn in E. subst r.
      apply write_loop_raises in L as [L|[L|[e' L]]]; try discriminate.
      symmetry in L. exact (raised_builtin _ _ L). }
    split; [|split].
    + split; [intros [msg E]; destruct (N _ E) | discriminate].
    + discriminate.
    + intros _. exact N.
  - split; [|split].
    + split; [reflexivity | eauto].
    + reflexivity.
    + discriminate.
Qed.

Lemma write_processing_error_witness :
  let cat := {| cp_url := py "https://codingbat.com/java/Warmup-1";
                cp_name := py "Warmup-1";
                problems := [Problem_init (py "https://codingbat.com/prob/p187868")];
                processed := false |} in
  write plain_open plain_store plain_close cat ∅
    = (∅, Raise (ProcessingError (py "Warmup-1 has not been processed"))).
Proof.
  intros cat.
  apply (proj1 (proj2
    (write_processing_error _ plain_open plain_store plain_close cat ∅))).
  reflexivity.
Defined.

(** * Further properties of the code *)

(** ** More on the type mapper *)

Lemma find_from_absent (c : N) (s : str) (pos : nat) :
  ~ In c s -> find_from s [c] pos = Raise ValueError.
Proof.
  revert pos. induction s as [|d s IH]; intros pos H; [reflexivity|].
  cbn [find_from startswith].
  destruct (N.eqb_spec c d) as [->|Hne]; [destruct H; left; reflexivity|].
  cbn. apply IH. intros Hin. apply H. right. exact Hin.
Qed.

Lemma bracketed_ok (t : str) : In LT t -> In GT t -> exists x, bracketed t = Ok x.
Proof.
  intros Hl Hg. unfold bracketed.
  destruct (index_In _ _ Hl) as [a ->], (index_In _ _ Hg) as [b ->]. cbn. eauto.
Qed.

Lemma bracketed_absent (t : str) :
  ~ In LT t \/ ~ In GT t -> bracketed t = Raise ValueError.
Proof.
  intros H. unfold bracketed, index.
  destruct (in_dec N.eq_dec LT t) as [Hl | Hl].
  - destruct (index_In _ _ Hl) as [a Ha]. unfold index in Ha. rewrite Ha. cbn.
    destruct H as [H | H]; [contradiction|]. rewrite (find_from_absent _ _ _ H).
    reflexivity.
  - rewrite (find_from_absent _ _ _ Hl). reflexivity.
Qed.

(** X1: [type_conversion] raises exactly on a token that starts with [Map]
    and lacks a [<] or a [>]; what it raises is [ValueError]. *)
Theorem type_conversion_raises (t : str) (e : exn) :
  type_conversion t = Raise e <->
  e = ValueError /\ startswith t (py "Map") = true /\ (~ In LT t \/ ~ In GT t).
Proof.
  unfold type_conversion. split.
  - destruct (startswith t (py "Map")).
    + destruct (in_dec N.eq_dec LT t) as [Hl | Hl];
        [destruct (in_dec N.eq_dec GT t) as [Hg | Hg]|].
      * destruct (bracketed_ok t Hl Hg) as [x ->]. discriminate.
      * rewrite bracketed_absent by auto. intros [= <-]. auto.
      * rewrite bracketed_absent by auto. intros [= <-]. auto.
    + destruct (startswith t (py "List")).
      * destruct (bracketed t) as [x|e'] eqn:E; [discriminate|].
        apply bracketed_raises in E as ->. discriminate.
      * destruct (endswith t (py "[]")); discriminate.
  - intros (-> & -> & H). rewrite bracketed_absent by exact H. reflexivity.
Qed.

Lemma in_join (c : N) (sep : str) (l : list str) :
  In c (join sep l) -> In c sep \/ exists x, In x l /\ In c x.
Proof.
  induction l as [|x [|y l] IH]; cbn [join]; [intros [] | |].
  - intros H. right. exists x. split; [left; reflexivity | exact H].
  - intros H. apply in_app_or in H as [H | H].
    + right. exists x. split; [left; reflexivity | exact H].
    + apply in_app_or in H as [H | H]; [left; exact H|].
      destruct (IH H) as [H' | (z & Hz & Hc)]; [left; exact H'|].
      right. exists z. split; [right; exact Hz | exact Hc].
Qed.

(** Reading a piece without comma. *)
Lemma split_go_piece (x rest cur : str) :
  ~ In COMMA x ->
  split_go (py ", ") (x ++ rest) 0 cur = split_go (py ", ") rest 0 (rev x ++ cur).
Proof.
  revert cur. induction x as [|c x IH]; intros cur H; [reflexivity|].
  cbn [app split_go]. change (py ", ") with [COMMA; SPACE]. cbn [startswith].
  destruct (N.eqb_spec COMMA c) as [<-|Hne]; [destruct H; left; reflexivity|].
  cbn [andb]. change [COMMA; SPACE] with (py ", "). rewrite IH.
  - cbn [rev]. rewrite <- app_assoc. reflexivity.
  - intros Hin. apply H. right. exact Hin.
Qed.

(** [split] undoes [join] when no piece has a comma. *)
Lemma split_join (l : list str) :
  l <> [] -> Forall (fun x => ~ In COMMA x) l ->
  split (join (py ", ") l) (py ", ") = l.
Proof.
  intros Hl H. unfold split. induction H as [|x l Hx Hall IH]; [congruence|].
  destruct l as [|y l].
  - cbn [join]. rewrite <- (app_nil_r x) at 1. rewrite split_go_piece by exact Hx.
    cbn. rewrite app_nil_r, rev_involutive. reflexivity.
  - change (join (py ", ") (x :: y :: l))
      with (x ++ COMMA :: SPACE :: join (py ", ") (y :: l)).
    rewrite split_go_piece by exact Hx. rewrite app_nil_r.
    cbn [split_go]. change (py ", ") with [COMMA; SPACE].
    cbn [startswith N.eqb COMMA SPACE Pos.eqb andb length Nat.sub].
    change [COMMA; SPACE] with (py ", ").
    rewrite rev_involutive. f_equal. apply IH. discriminate.
Qed.

(** X2: a [Map<...>] token whose bracket holds pieces joined by [, ], none
    with a comma or a [>], is mapped to [Dict[...]] of the pieces, each
    looked up in the table; what follows the first [>] is ignored. *)
Theorem type_conversion_map (l : list str) (rest : str) :
  Forall (fun x => ~ In COMMA x /\ ~ In GT x) l ->
  type_conversion (py "Map<" ++ join (py ", ") l ++ py ">" ++ rest) =
    Ok (py "Dict[" ++ join (py ", ") (map convert_name l) ++ py "]").
Proof.
  intros H. unfold type_conversion.
  change (startswith (py "Map<" ++ join (py ", ") l ++ py ">" ++ rest) (py "Map"))
    with true. cbv iota.
  assert (Hb : bracketed (py "Map<" ++ join (py ", ") l ++ py ">" ++ rest)
               = Ok (join (py ", ") l)).
  { unfold bracketed.
    change (index (py "Map<" ++ join (py ", ") l ++ py ">" ++ rest) [LT]) with (@Ok nat 3).
    cbn [ebind].
    replace (py "Map<" ++ join (py ", ") l ++ py ">" ++ rest)
      with ((py "Map<" ++ join (py ", ") l) ++ GT :: rest)
      by (rewrite <- app_assoc; reflexivity).
    rewrite index_skip.
    - cbn [ebind]. f_equal.
      rewrite <- app_assoc.
      change (3 + 1) with (length (py "Map<")).
      rewrite length_app. apply slice_middle.
    - rewrite in_app_iff. intros [Hin | Hin].
      + vm_compute in Hin. repeat (destruct Hin as [Hin|Hin]; [discriminate|]). exact Hin.
      + apply in_join in Hin as [Hin | (x & Hx & Hin)].
        * vm_compute in Hin. repeat (destruct Hin as [Hin|Hin]; [discriminate|]). exact Hin.
        * rewrite List.Forall_forall in H. destruct (H x Hx) as [_ Hg]. contradiction. }
  rewrite Hb. cbn [ebind]. destruct l as [|x l]; [reflexivity|].
  rewrite split_join; [reflexivity | discriminate|].
  eapply Forall_impl; [exact H|]. intros y [Hy _]. exact Hy.
Qed.

Lemma type_conversion_map_witness :
  type_conversion (py "Map<String, Boolean>[]") = Ok (py "Dict[str, bool]").
Proof.
  apply (type_conversion_map [py "String"; py "Boolean"] (py "[]")).
  repeat constructor;
    vm_compute; intros K; repeat (destruct K as [K|K]; [discriminate|]); exact K.
Defined.

(** X3: a [List<T>] token whose [T] has no [>] is mapped to [List[T']], [T']
    being [T] looked up in the table; what follows the [>] is ignored. *)
Theorem type_conversion_list (x rest : str) :
  ~ In GT x ->
  type_conversion (py "List<" ++ x ++ py ">" ++ rest) =
    Ok (py "List[" ++ convert_name x ++ py "]").
Proof.
  intros H. unfold type_conversion.
  change (startswith (py "List<" ++ x ++ py ">" ++ rest) (py "Map")) with false.
  change (startswith (py "List<" ++ x ++ py ">" ++ rest) (py "List")) with true.
  cbv iota.
  assert (Hb : bracketed (py "List<" ++ x ++ py ">" ++ rest) = Ok x).
  { unfold bracketed.
    change (index (py "List<" ++ x ++ py ">" ++ rest) [LT]) with (@Ok nat 4).
    cbn [ebind].
    replace (py "List<" ++ x ++ py ">" ++ rest)
      with ((py "List<" ++ x) ++ GT :: rest)
      by (rewrite <- app_assoc; reflexivity).
    rewrite index_skip.
    - cbn [ebind]. f_equal. rewrite <- app_assoc.
      change (4 + 1) with (length (py "List<")).
      rewrite length_app. apply slice_middle.
    - rewrite in_app_iff. intros [Hin | Hin]; [|contradiction].
      vm_compute in Hin. repeat (destruct Hin as [Hin|Hin]; [discriminate|]). exact Hin. }
  rewrite Hb. reflexivity.
Qed.

Lemma type_conversion_list_witness :
  type_conversion (py "List<Integer>") = Ok (py "List[int]").
Proof.
  apply (type_conversion_list (py "Integer") []).
  vm_compute; intros K; repeat (destruct K as [K|K]; [discriminate|]); exact K.
Defined.

Lemma startswith_app_other (t x p : str) (c : N) :
  ~ In c p -> startswith (t ++ c :: x) p = startswith t p.
Proof.
  revert t. induction p as [|a p IH]; intros t H; [reflexivity|].
  destruct t as [|d t]; cbn [app startswith].
  - destruct (N.eqb_spec a c) as [->|]; [destruct H; left; reflexivity | reflexivity].
  - rewrite IH; [reflexivity|]. intros Hin. apply H. right. exact Hin.
Qed.

(** X4: an array token [T[]] whose [T] starts with neither [Map] nor [List]
    is mapped to [List[T']], [T'] being [T] looked up in the table. *)
Theorem type_conversion_array (t : str) :
  startswith t (py "Map") = false ->
  startswith t (py "List") = false ->
  type_conversion (t ++ py "[]") = Ok (py "List[" ++ convert_name t ++ py "]").
Proof.
  intros HM HL. unfold type_conversion.
  change (t ++ py "[]") with (t ++ 91%N :: [93%N]).
  rewrite !startswith_app_other, HM, HL.
  - replace (endswith (t ++ [91%N; 93%N]) (py "[]")) with true.
    + unfold drop_last. rewrite length_app. cbn [length].
      replace (length t + 2 - 2) with (length t) by lia.
      rewrite firstn_app, Nat.sub_diag, firstn_all. cbn [firstn]. rewrite app_nil_r.
      reflexivity.
    + unfold endswith. rewrite rev_app_distr. symmetry. apply startswith_app.
  - vm_compute. intros K. repeat (destruct K as [K|K]; [discriminate|]). exact K.
  - vm_compute. intros K. repeat (destruct K as [K|K]; [discriminate|]). exact K.
Qed.

Lemma type_conversion_array_witness :
  type_conversion (py "String[]") = Ok (py "List[str]").
Proof.
  apply (type_conversion_array (py "String")); reflexivity.
Defined.

(** ** More on the converter *)

(** X5: the constructor raises exactly when the declaration has no space
    or no [)]; what it raises is [ValueError]. *)
Theorem Converter_init_raises (d : str) (e : exn) :
  Converter_init d = Raise e <->
  e = ValueError /\ (~ In SPACE d \/ ~ In RPAREN d).
Proof.
  unfold Converter_init, index. split.
  - destruct (in_dec N.eq_dec SPACE d) as [Hs | Hs].
    + destruct (index_In _ _ Hs) as [a Ha]. unfold index in Ha. rewrite Ha. cbn [ebind].
      destruct (in_dec N.eq_dec RPAREN d) as [Hr | Hr].
      * destruct (index_In _ _ Hr) as [b Hb]. unfold index in Hb. rewrite Hb. discriminate.
      * rewrite (find_from_absent _ _ _ Hr). intros [= <-]. auto.
    + rewrite (find_from_absent _ _ _ Hs). intros [= <-]. auto.
  - intros [-> H].
    destruct (in_dec N.eq_dec SPACE d) as [Hs | Hs].
    + destruct (index_In _ _ Hs) as [a Ha]. unfold index in Ha. rewrite Ha. cbn [ebind].
      destruct H as [H | H]; [contradiction|].
      rewrite (find_from_absent _ _ _ H). reflexivity.
    + rewrite (find_from_absent _ _ _ Hs). reflexivity.
Qed.

Lemma drop_run_In (p : N -> bool) (s t : str) (d : N) :
  drop_run p s = d :: t -> In d s.
Proof.
  induction s as [|c s IH]; cbn [drop_run]; [discriminate|].
  destruct (p c); [intros H; right; apply IH, H | intros [= -> _]; left; reflexivity].
Qed.

Section ConvertErrors.

Variable uni_alnum : N -> bool.

Lemma search_name_absent (s : str) (pos : nat) :
  ~ In LPAREN s -> search_from (name_re uni_alnum) s pos = None.
Proof.
  revert pos. induction s as [|c s IH]; intros pos H; [reflexivity|].
  cbn [search_from].
  assert (Hs : ~ In LPAREN s) by (intros Hin; apply H; right; exact Hin).
  replace (rmatch (name_re uni_alnum) (c :: s) []) with (@nil (list str * str));
    [apply IH, Hs|].
  symmetry. destruct (is_word uni_alnum c) eqn:Hc;
    [|apply rmatch_name_re_other; exact Hc].
  rewrite (rmatch_name_re_word _ _ _ Hc).
  destruct (drop_run (is_word uni_alnum) s) as [|d t] eqn:E; [reflexivity|].
  apply drop_run_In in E.
  destruct (N.eqb_spec LPAREN d) as [<-|]; [contradiction | reflexivity].
Qed.

(** X6: [convert] on a text without [(] raises [AttributeError]: the search
    for the name finds nothing. *)
Theorem convert_without_paren (self : Converter) :
  ~ In LPAREN (dec self) -> convert uni_alnum self = Raise AttributeError.
Proof.
  intros H. unfold convert, re_search. rewrite search_name_absent by exact H.
  reflexivity.
Qed.

End ConvertErrors.

Lemma convert_without_paren_witness :
  convert (fun _ => false) {| dec := py "int x = 3)" |} = Raise AttributeError.
Proof.
  apply convert_without_paren.
  vm_compute; intros K; repeat (destruct K as [K|K]; [discriminate|]); exact K.
Defined.

(** ** More on the parameter splitter *)

Section SplitterMore.

Variable uni_alnum : N -> bool.

Abbreviation word := (fun c : N => is_word uni_alnum c = true).

(** What a match of [(.+) (\w+)$] is made of. *)
Lemma rmatch_param_re_inv (s : str) (g g' : list str) (t : str) :
  In (g', t) (rmatch (param_re uni_alnum) s g) ->
  exists ty nm,
    ty <> [] /\ Forall (fun c => dot c = true) ty /\
    nm <> [] /\ Forall word nm /\
    s = ty ++ SPACE :: nm ++ t /\ g' = g ++ [ty; nm].
Proof.
  unfold param_re. rewrite rmatch_group_plus. intros H.
  apply in_flat_map in H as (t1 & H1 & H).
  destruct (plus_class_inv _ _ _ H1) as (ty & Hty & Hdot & ->).
  destruct t1 as [|d t2]; [destruct H|].
  destruct (N.eqb_spec SPACE d) as [<-|Hd];
    [rewrite rmatch_seq_char_hit in H
    |rewrite rmatch_seq_char_miss in H by (apply N.eqb_neq, Hd); destruct H].
  rewrite rmatch_group_plus in H.
  apply in_flat_map in H as (t3 & H3 & H).
  destruct (plus_class_inv _ _ _ H3) as (nm & Hnm & Hw & ->).
  rewrite !consumed_app in H.
  assert (E : (g', t) = ((g ++ [ty]) ++ [nm], t3)).
  { destruct t3 as [|e [|? ?]]; cbn [rmatch] in H.
    - destruct H as [H | []]. symmetry. exact H.
    - destruct (N.eqb e NL); [|destruct H]. destruct H as [H | []]. symmetry. exact H.
    - destruct H. }
  injection E as -> ->. exists ty, nm. rewrite <- app_assoc. auto 10.
Qed.

Lemma search_param_inv (s : str) (pos : nat) (m : Match) :
  search_from (param_re uni_alnum) s pos = Some m ->
  exists ty nm,
    nm <> [] /\ Forall word nm /\ In SPACE s /\ m_groups m = [ty; nm].
Proof.
  revert pos. induction s as [|d s IH]; intros pos.
  - cbn. discriminate.
  - cbn [search_from].
    destruct (rmatch (param_re uni_alnum) (d :: s) []) as [|[g t] l] eqn:E.
    + intros H. destruct (IH _ H) as (ty & nm & H1 & H2 & H3 & H4).
      exists ty, nm. repeat split; auto. right. exact H3.
    + intros [= <-].
      destruct (rmatch_param_re_inv (d :: s) [] g t) as (ty & nm & _ & _ & H1 & H2 & E1 & E2).
      { rewrite E. left. reflexivity. }
      exists ty, nm. repeat split; auto.
      rewrite E1. apply in_or_app. right. left. reflexivity.
Qed.

Lemma handle_params_list_aux (l : list (str * str)) :
  Forall (param_ok uni_alnum) l ->
  handle_params uni_alnum (join (py ", ") (map raw_param l)) = emap render_param l.
Proof.
  induction 1 as [|[ty nm] l (Hty & Hdot & Hnm & Hw & Hin & Hbal) Hall IH];
    [reflexivity|].
  cbn [fst snd] in *. destruct l as [|q l].
  - cbn [map join emap]. unfold raw_param, render_param. cbn [fst snd].
    change (ty ++ py " " ++ nm) with (ty ++ SPACE :: nm).
    rewrite (handle_params_one_aux uni_alnum ty nm) by assumption.
    destruct (type_conversion ty); reflexivity.
  - replace (join (py ", ") (map raw_param ((ty, nm) :: q :: l)))
      with (ty ++ SPACE :: nm ++ COMMA :: SPACE :: join (py ", ") (map raw_param (q :: l)))
      by (cbn [map join]; change (raw_param (ty, nm)) with (ty ++ SPACE :: nm);
          rewrite <- app_assoc; reflexivity).
    assert (Hrest : join (py ", ") (map raw_param (q :: l)) <> []).
    { inversion Hall as [|? ? (Hq & _) _]; subst.
      destruct q as [[|c qt] qn]; [contradiction | destruct l; discriminate]. }
    rewrite (handle_params_cons_aux uni_alnum ty nm) by assumption.
    rewrite IH.
    change (emap render_param ((ty, nm) :: q :: l))
      with (let* y := (let* t := type_conversion ty in Ok (rename nm ++ py ": " ++ t)) in
            let* ys := emap render_param (q :: l) in Ok (y :: ys)).
    destruct (type_conversion ty); reflexivity.
Qed.

(** X7: on parameters that are each a type and a name, joined by [, ],
    [handle_params] renders every parameter, in order: the name renamed,
    the type mapped; the first type that cannot be mapped raises. *)
Theorem handle_params_list (l : list (str * str)) :
  Forall (param_ok uni_alnum) l ->
  handle_params uni_alnum (join (py ", ") (map raw_param l)) = emap render_param l.
Proof. exact (handle_params_list_aux l). Qed.

(** X8: a text that ends with [<] or [>] and has no comma outside brackets
    gives no parameter at all, and no error: its last character moves a
    counter and is no boundary. *)
Theorem handle_params_trailing_bracket (q : str) (c : N) :
  commas_inside q -> c = LT \/ c = GT ->
  handle_params uni_alnum (q ++ [c]) = Ok [].
Proof.
  intros Hin Hc. unfold handle_params.
  rewrite hp_loop_inside.
  - cbn [hp_loop]. unfold hp_body.
    destruct Hc as [-> | ->]; reflexivity.
  - intros a b E. cbn. apply (Hin a b E).
  - rewrite length_app. cbn. lia.
Qed.

(** X9: a text without space that does not end with [<] or [>] and has no
    comma outside brackets raises [AttributeError]: the pattern finds no
    type and name in it. *)
Theorem handle_params_without_space (q : str) (c : N) :
  commas_inside q -> c <> LT -> c <> GT ->
  ~ In SPACE (q ++ [c]) ->
  handle_params uni_alnum (q ++ [c]) = Raise AttributeError.
Proof.
  intros Hin HLT HGT Hsp. unfold handle_params.
  rewrite hp_loop_inside.
  - cbn [hp_loop]. unfold hp_body.
    apply N.eqb_neq in HLT, HGT. rewrite HLT, HGT.
    replace (0 + length q =? length (q ++ [c]) - 1) with true
      by (symmetry; apply Nat.eqb_eq; rewrite length_app; cbn; lia).
    rewrite orb_true_r. cbn [split_idx hp_init].
    replace (slice (q ++ [c]) 0 (0 + length q + 1)) with (q ++ [c]).
    2:{ unfold slice. cbn [skipn]. rewrite Nat.sub_0_r.
        symmetry. apply firstn_all2. rewrite length_app. cbn. lia. }
    destruct (re_search _ _) as [m|] eqn:E; [|reflexivity].
    apply search_param_inv in E as (ty & nm & _ & _ & Hs & _). destruct (Hsp Hs).
  - intros a b E. cbn. apply (Hin a b E).
  - rewrite length_app. cbn. lia.
Qed.

End SplitterMore.

Lemma handle_params_list_witness :
  handle_params (fun _ => false) (py "Map<String, Integer> map, int len") =
    emap render_param [(py "Map<String, Integer>", py "map"); (py "int", py "len")].
Proof.
  apply (handle_params_list (fun _ => false)
           [(py "Map<String, Integer>", py "map"); (py "int", py "len")]).
  repeat constructor; cbn [fst snd];
    try discriminate; try (vm_compute; repeat constructor);
    try (intros a b E; comma_places E a).
Defined.

Lemma handle_params_trailing_bracket_witness :
  handle_params (fun _ => false) (py "List<Integer>") = Ok [].
Proof.
  apply (handle_params_trailing_bracket (fun _ => false) (py "List<Integer") GT).
  - intros a b E. comma_places E a.
  - right. reflexivity.
Defined.

Lemma handle_params_without_space_witness :
  handle_params (fun _ => false) (py "int") = Raise AttributeError.
Proof.
  apply (handle_params_without_space (fun _ => false) (py "in") 116%N).
  - intros a b E. comma_places E a.
  - discriminate.
  - discriminate.
  - vm_compute. intros K. repeat (destruct K as [K|K]; [discriminate|]). exact K.
Defined.

Section SplitterNames.

Variable uni_alnum : N -> bool.

Abbreviation word := (fun c : N => is_word uni_alnum c = true).

Lemma rename_word (nm : str) :
  nm <> [] -> Forall word nm ->
  rename nm <> [] /\ Forall word (rename nm) /\
  rename nm <> py "str" /\ rename nm <> py "len" /\ rename nm <> py "map".
Proof.
  intros Hnm Hw. unfold rename.
  destruct (str_eqb nm (py "str")) eqn:E1;
    [repeat split; try discriminate; vm_compute; repeat constructor|].
  destruct (str_eqb nm (py "len")) eqn:E2;
    [repeat split; try discriminate; vm_compute; repeat constructor|].
  destruct (str_eqb nm (py "map")) eqn:E3;
    [repeat split; try discriminate; vm_compute; repeat constructor|].
  repeat split; try assumption; intros ->; discriminate.
Qed.

Lemma hp_body_names (paramstr : str) (st st' : hp_state) (idx : nat) (i : N) :
  Forall (well_named uni_alnum) (params st) ->
  hp_body uni_alnum paramstr st idx i = Ok st' ->
  Forall (well_named uni_alnum) (params st').
Proof.
  intros H. unfold hp_body.
  destruct (N.eqb i LT); [intros [= <-]; exact H|].
  destruct (N.eqb i GT); [intros [= <-]; exact H|].
  destruct (_ || _); [|intros [= <-]; exact H].
  destruct (re_search _ _) as [m|] eqn:E; [|discriminate].
  apply search_param_inv in E as (ty & nm & Hnm & Hw & _ & ->).
  destruct (type_conversion ty) as [t|]; [|discriminate].
  intros [= <-]. cbn [params]. apply Forall_app. split; [exact H|].
  constructor; [|constructor].
  destruct (rename_word nm Hnm Hw) as (H1 & H2 & H3 & H4 & H5).
  exists (rename nm), t. auto 10.
Qed.

Lemma hp_loop_names (paramstr rest : str) (idx : nat) (st st' : hp_state) :
  Forall (well_named uni_alnum) (params st) ->
  hp_loop uni_alnum paramstr rest idx st = Ok st' ->
  Forall (well_named uni_alnum) (params st').
Proof.
  revert idx st. induction rest as [|i rest IH]; intros idx st H; cbn [hp_loop].
  - intros [= <-]. exact H.
  - destruct (hp_body uni_alnum paramstr st idx i) as [st1|] eqn:E; [|discriminate].
    cbn [ebind]. apply IH. eapply hp_body_names; eassumption.
Qed.

(** X10: whatever the text, every parameter [handle_params] returns is
    [name: type] with a name that is a non-empty word and is none of [str],
    [len] and [map]. *)
Theorem handle_params_names (paramstr : str) (l : list str) :
  handle_params uni_alnum paramstr = Ok l ->
  Forall (well_named uni_alnum) l.
Proof.
  unfold handle_params.
  destruct (hp_loop uni_alnum paramstr paramstr 0 hp_init) as [st|] eqn:E; [|discriminate].
  intros [= <-]. eapply hp_loop_names; [|exact E]. constructor.
Qed.

(** X11: after a comma that ends a parameter the next character is skipped
    whatever it is, a space or not (a [<], [>] or comma apart): the further
    parameters are read from the character after it. *)
Theorem handle_params_skips_one (ty nm rest : str) (x : N) :
  ty <> [] -> Forall (fun c => dot c = true) ty ->
  nm <> [] -> Forall word nm ->
  commas_inside ty -> balanced ty -> rest <> [] ->
  x <> LT -> x <> GT -> x <> COMMA ->
  handle_params uni_alnum (ty ++ py " " ++ nm ++ [COMMA; x] ++ rest) =
    let* t := type_conversion ty in
    let* ps := handle_params uni_alnum rest in
    Ok ((rename nm ++ py ": " ++ t) :: ps).
Proof.
  intros Hty Hdot Hnm Hw Hin Hbal Hrest HxL HxG HxC.
  set (p := ty ++ SPACE :: nm).
  set (k := count_char LT p).
  assert (Ep : ty ++ py " " ++ nm ++ [COMMA; x] ++ rest = (p ++ [COMMA; x]) ++ rest).
  { unfold p. cbn [app]. rewrite <- !app_assoc. reflexivity. }
  assert (HkL : count_char LT p = k) by reflexivity.
  assert (HkG : count_char GT p = k).
  { unfold k, p. rewrite !count_char_app. cbn [count_char].
    rewrite !(count_char_word uni_alnum _ nm) by (try reflexivity; exact Hw).
    cbn. rewrite Hbal. reflexivity. }
  unfold handle_params. rewrite Ep.
  set (paramstr := (p ++ [COMMA; x]) ++ rest).
  assert (Hlen : length paramstr = length p + 2 + length rest).
  { unfold paramstr. rewrite !length_app. reflexivity. }
  assert (Hr : 0 < length rest) by (destruct rest; [congruence | cbn; lia]).
  replace paramstr with (p ++ COMMA :: x :: rest) at 2
    by (unfold paramstr; rewrite <- app_assoc; reflexivity).
  rewrite hp_loop_inside.
  2:{ intros a b E. cbn. apply (comma_in_type uni_alnum) in E as [b' ->]; [|exact Hw].
      apply (Hin a b'). reflexivity. }
  2:{ lia. }
  cbn [hp_loop Nat.add hp_init lcarrot_count rcarrot_count split_idx params].
  rewrite HkL, HkG.
  rewrite (hp_body_cut uni_alnum _ _ _ _ ty nm).
  - destruct (type_conversion ty) as [t|e]; [|reflexivity]. cbn [ebind].
    unfold hp_body at 1.
    replace (S (length p) =? length paramstr - 1) with false
      by (symmetry; apply Nat.eqb_neq; lia).
    apply N.eqb_neq in HxL, HxG, HxC. rewrite HxL, HxG, HxC.
    cbn [andb orb ebind].
    replace (S (S (length p))) with (length (p ++ [COMMA; x]) + 0)
      by (rewrite length_app; cbn; lia).
    replace (length p + 2) with (length (p ++ [COMMA; x]))
      by (rewrite length_app; reflexivity).
    pose proof (hp_loop_shift uni_alnum (p ++ [COMMA; x]) rest k
                  [rename nm ++ py ": " ++ t] rest hp_init 0 eq_refl) as Hs.
    match goal with
    | |- ebind _ ?K = ?R =>
        change (ebind (hp_loop uni_alnum ((p ++ [COMMA; x]) ++ rest) rest
                         (length (p ++ [COMMA; x]) + 0)
                         (hp_shift k (length (p ++ [COMMA; x]))
                            [rename nm ++ py ": " ++ t] hp_init)) K = R)
    end.
    rewrite Hs.
    destruct (hp_loop uni_alnum rest rest 0 hp_init); reflexivity.
  - reflexivity.
  - reflexivity.
  - cbn [lcarrot_count rcarrot_count]. rewrite Nat.eqb_refl. reflexivity.
  - replace (length p =? length paramstr - 1) with false
      by (symmetry; apply Nat.eqb_neq; lia).
    cbn [split_idx]. rewrite Nat.add_0_r. unfold paramstr.
    rewrite <- app_assoc. apply slice_prefix.
  - exact Hty.
  - exact Hdot.
  - exact Hnm.
  - exact Hw.
Qed.

End SplitterNames.

Lemma handle_params_names_witness :
  Forall (well_named (fun _ => false)) [py "string: str"; py "n: int"].
Proof.
  apply (handle_params_names (fun _ => false) (py "String str, int n")).
  vm_compute. reflexivity.
Defined.

Lemma handle_params_skips_one_witness :
  handle_params (fun _ => false) (py "int a,int b") =
    (let* ps := handle_params (fun _ => false) (py "nt b") in Ok (py "a: int" :: ps)).
Proof.
  apply (handle_params_skips_one (fun _ => false) (py "int") (py "a") (py "nt b") 105%N).
  - discriminate.
  - vm_compute. repeat constructor.
  - discriminate.
  - vm_compute. repeat constructor.
  - intros a b E. comma_places E a.
  - reflexivity.
  - discriminate.
  - discriminate.
  - discriminate.
  - discriminate.
Defined.

(** ** More on the assertion block *)

Lemma re_sub_verbatim (s : str) :
  contains s [ARROW] = false ->
  contains s (py "true") = false ->
  contains s (py "false") = false ->
  re_sub assert_re conversion_of s = Ok s.
Proof.
  induction s as [|c s IH]; [reflexivity|].
  cbn [contains]. intros H1 H2 H3.
  apply orb_false_iff in H1 as [H1 H1'], H2 as [H2 H2'], H3 as [H3 H3'].
  rewrite re_sub_other by assumption. rewrite IH by assumption. reflexivity.
Qed.

(** X12: examples in which neither the arrow nor [true] nor [false] occurs
    are copied unchanged into their [assert] lines. *)
Theorem make_asserts_verbatim (l : list str) :
  Forall (fun e => contains e [ARROW] = false /\
                   contains e (py "true") = false /\
                   contains e (py "false") = false) l ->
  make_asserts l =
    Ok (py "if __name__ == '__main__':"
          ++ concat (map (fun e => [NL] ++ py "    assert " ++ e) l)).
Proof.
  intros H. unfold make_asserts.
  replace (emap (re_sub assert_re conversion_of) l) with (@Ok (list str) l);
    [reflexivity|].
  induction H as [|e l (H1 & H2 & H3) _ IH]; [reflexivity|].
  cbn [emap]. rewrite re_sub_verbatim by assumption. rewrite <- IH. reflexivity.
Qed.

Lemma make_asserts_verbatim_witness :
  make_asserts [py "sum(1, 2) == 3"] =
    Ok (py "if __name__ == '__main__':" ++ [NL] ++ py "    assert sum(1, 2) == 3").
Proof.
  apply (make_asserts_verbatim [py "sum(1, 2) == 3"]).
  repeat constructor.
Defined.

(** ** More on the docstring wrapper *)

Lemma in_skipn_slice (s : str) (a b n : nat) (x : N) :
  In x (skipn n (slice s a b)) ->
  exists j, a + n <= j /\ j < b /\ s !! j = Some x.
Proof.
  intros H. apply list_elem_of_In, list_elem_of_lookup_1 in H as [i Hi].
  unfold slice in Hi. rewrite lookup_drop in Hi.
  apply lookup_take_Some in Hi as [Hi Hlt]. rewrite lookup_drop in Hi.
  exists (a + (n + i)). split; [lia|]. split; [lia | exact Hi].
Qed.

Lemma lines_greedy_snoc (W : list str) (l : str) :
  lines_greedy W ->
  (match W with [] => 82 | _ => 81 end) <= length l ->
  ~ In SPACE (skipn (match W with [] => 82 | _ => 81 end) l) ->
  lines_greedy (W ++ [l]).
Proof.
  destruct W as [|l0 ls]; cbn [lines_greedy app].
  - intros _ H1 H2. split; [split; assumption | constructor].
  - intros [H0 Hls] H1 H2. split; [exact H0|].
    apply Forall_app. split; [exact Hls|]. constructor; [split; assumption | constructor].
Qed.

Lemma wrap_body_greedy (s : str) (st : wrap_state) :
  idx2 st < length s -> wrap_inv_greedy s st -> wrap_inv_greedy s (wrap_body s st).
Proof.
  intros Hlt [(_ & H1 & HW & H0 & Hlc & Hno) | [Hend _]]; [|lia].
  unfold wrap_body, wrap_inv_greedy.
  destruct (Nat.eqb_spec (idx2 st) (length s - 1)) as [Hlast | Hlast].
  - rewrite orb_true_r. cbn [idx1 idx2 lettercount docstringwrap].
    right. split; [lia|]. right. eauto.
  - rewrite orb_false_r.
    destruct ((81 <? lettercount st) && space_at s (idx2 st)) eqn:Hcut;
      cbn [idx1 idx2 lettercount docstringwrap].
    + apply andb_true_iff in Hcut as [Hc1 _]. apply Nat.ltb_lt in Hc1.
      left. split; [lia|]. split; [lia|].
      assert (Hsnoc : lines_greedy
                (docstringwrap st ++ [slice s (idx1 st) (idx2 st + 0)])).
      { apply lines_greedy_snoc; [exact HW | |].
        - rewrite Nat.add_0_r, slice_length by lia.
          destruct (docstringwrap st); lia.
        - intros Hin. apply in_skipn_slice in Hin as (j & Hj1 & Hj2 & Hj).
          apply (Hno j); [lia | lia | | exact Hj].
          destruct (docstringwrap st); lia. }
      split; [exact Hsnoc|].
      split; [intros E; destruct (docstringwrap st); discriminate|].
      split; [destruct (docstringwrap st); cbn; lia|].
      intros j Hj1 Hj2. lia.
    + left. split; [lia|]. split; [lia|]. split; [exact HW|].
      split; [exact H0|]. split; [lia|].
      intros j Hj1 Hj2 Hj3.
      destruct (Nat.eq_dec j (idx2 st)) as [->|Hne];
        [|apply Hno; [lia | lia | exact Hj3]].
      intros Hsp. apply andb_false_iff in Hcut as [Hc | Hc].
      * apply Nat.ltb_ge in Hc. lia.
      * unfold space_at in Hc. rewrite Hsp in Hc. discriminate.
Qed.

Lemma wrap_greedy_final (s : str) :
  (s = [] /\ wrap s = []) \/
  exists W final, wrap s = W ++ [final] /\ lines_greedy W.
Proof.
  destruct (wrap_loop_inv s (wrap_inv_greedy s) (wrap_body_greedy s) wrap_init) as [H Hge].
  - destruct s as [|c s].
    + right. split; [reflexivity|]. left. split; reflexivity.
    + left. cbn. repeat split; intros; lia.
  - unfold wrap. destruct H as [(Hlt & _) | [_ H]]; [lia | exact H].
Qed.

(** X13: the wrapping is greedy: of the lines before the last, the first
    has at least 82 characters and no space from its 83rd on, every further
    one at least 81 and no space from its 82nd on; each was cut at the first
    space the threshold allowed. *)
Theorem wrap_greedy (s : str) (W : list str) (final : str) :
  wrap s = W ++ [final] -> lines_greedy W.
Proof.
  intros E. destruct (wrap_greedy_final s) as [[_ H] | (W' & final' & H & HW)].
  - rewrite H in E. destruct W; discriminate.
  - rewrite H in E. apply app_inj_tail in E as [<- _]. exact HW.
Qed.

Lemma join_length_two (sep l0 l1 : str) (ls : list str) :
  length (join sep (l0 :: l1 :: ls)) =
    length l0 + length sep + length (join sep (l1 :: ls)).
Proof. cbn [join]. rewrite !length_app. lia. Qed.

(** X14: a text of at most 83 characters is not wrapped: it is the one
    line of the result. *)
Theorem wrap_short (s : str) :
  s <> [] -> length s <= 83 -> wrap s = [s].
Proof.
  intros Hs Hlen.
  destruct (wrap_inv_final s) as [Hne Hjoin].
  destruct (wrap_greedy_final s) as [[H _] | (W & final & H & HW)]; [congruence|].
  destruct W as [|l0 ls].
  - rewrite H in Hjoin |- *. cbn in Hjoin. rewrite Hjoin. reflexivity.
  - exfalso. rewrite H in Hjoin, Hne. destruct HW as [[H0 _] _].
    cbn [app] in Hjoin, Hne.
    assert (Hl : length s = length (join [SPACE] (l0 :: ls ++ [final])))
      by (rewrite Hjoin; reflexivity).
    destruct (ls ++ [final]) as [|l1 ls'] eqn:E; [destruct ls; discriminate|].
    rewrite join_length_two in Hl. cbn [length] in Hl.
    inversion Hne as [|? ? _ Hne']; subst. inversion Hne' as [|? ? Hl1 _]; subst.
    assert (1 <= length (join [SPACE] (l1 :: ls'))).
    { destruct l1 as [|c l1]; [congruence|].
      destruct ls'; cbn [join app length]; lia. }
    lia.
Qed.

Lemma wrap_greedy_witness :
  lines_greedy
    [py "The parameter weekday is true if it is a weekday, and the parameter vacation is true";
     py "if we are on vacation. We sleep in if it is not a weekday or we're on vacation. Return"].
Proof.
  apply (wrap_greedy long_doc _ (py "true if we sleep in.")).
  vm_compute. reflexivity.
Defined.

Lemma wrap_short_witness :
  wrap (py "We sleep in if it is not a weekday.")
    = [py "We sleep in if it is not a weekday."].
Proof.
  apply wrap_short; [discriminate | vm_compute; lia].
Defined.

(** ** A whole declaration *)

Section WholeDeclaration.

Variable uni_alnum : N -> bool.

Lemma convert_parts (m r nm ps rest : str) :
  ~ In SPACE m -> ~ In RPAREN m ->
  ~ In LPAREN r -> ~ In RPAREN r ->
  (forall c, last r = Some c -> is_word uni_alnum c = false) ->
  nm <> [] -> Forall (fun c => is_word uni_alnum c = true) nm ->
  ~ In RPAREN ps ->
  (let* c := Converter_init
               (m ++ [SPACE] ++ r ++ nm ++ [LPAREN] ++ ps ++ [RPAREN] ++ rest) in
   convert uni_alnum c) =
    (let* rettype := type_conversion (strip r) in
     let* params := handle_params uni_alnum ps in
     Ok (py "def " ++ nm ++ py "(" ++ join (py ", ") params ++ py ") -> "
           ++ rettype ++ py ":" ++ [NL] ++ py "    pass")).
Proof.
  intros Hm1 Hm2 Hr1 Hr2 Hlast Hnm Hw Hps.
  assert (Hn1 : ~ In LPAREN nm) by (apply (word_not_in uni_alnum); [reflexivity | exact Hw]).
  assert (Hn2 : ~ In RPAREN nm) by (apply (word_not_in uni_alnum); [reflexivity | exact Hw]).
  set (d := r ++ nm ++ [LPAREN] ++ ps ++ [RPAREN]).
  assert (Hinit : Converter_init (m ++ [SPACE] ++ r ++ nm ++ [LPAREN] ++ ps ++ [RPAREN] ++ rest)
                  = Ok {| dec := d |}).
  { unfold Converter_init.
    cbn [app]. rewrite (index_skip SPACE m _ Hm1). cbn [ebind].
    replace (m ++ SPACE :: r ++ nm ++ LPAREN :: ps ++ RPAREN :: rest)
      with ((m ++ SPACE :: r ++ nm ++ LPAREN :: ps) ++ RPAREN :: rest)
      by (rewrite <- !app_assoc; cbn [app]; rewrite <- !app_assoc; reflexivity).
    rewrite index_skip.
    2:{ rewrite !in_app_iff. cbn [In]. rewrite !in_app_iff. cbn [In].
        intros [?|[?|[?|[?|[?|?]]]]]; try contradiction; discriminate. }
    cbn [ebind]. f_equal. f_equal.
    replace ((m ++ SPACE :: r ++ nm ++ LPAREN :: ps) ++ RPAREN :: rest)
      with ((m ++ [SPACE]) ++ d ++ rest)
      by (unfold d; rewrite <- !app_assoc; cbn [app]; rewrite <- !app_assoc; reflexivity).
    replace (length m + 1) with (length (m ++ [SPACE])) by (rewrite length_app; reflexivity).
    replace (length (m ++ SPACE :: r ++ nm ++ LPAREN :: ps) + 1)
      with (length (m ++ [SPACE]) + length d).
    - apply slice_middle.
    - unfold d. rewrite !length_app. cbn [length]. rewrite !length_app. cbn [length]. lia. }
  rewrite Hinit. cbn [ebind]. unfold convert. cbn [dec].
  unfold re_search, d. cbn [app].
  rewrite (search_name uni_alnum r nm (ps ++ [RPAREN]) 0 Hr1 Hlast Hnm Hw).
  cbn [m_start m_groups nth Nat.add].
  rewrite slice_prefix.
  destruct (type_conversion (strip r)) as [rettype|e]; [|reflexivity]. cbn [ebind].
  replace (r ++ nm ++ LPAREN :: ps ++ [RPAREN])
    with ((r ++ nm) ++ LPAREN :: ps ++ [RPAREN]) by (rewrite <- app_assoc; reflexivity).
  rewrite index_skip by (rewrite in_app_iff; tauto). cbn [ebind].
  replace ((r ++ nm) ++ LPAREN :: ps ++ [RPAREN])
    with (((r ++ nm) ++ LPAREN :: ps) ++ [RPAREN])
    by (rewrite <- !app_assoc; reflexivity).
  rewrite index_skip.
  2:{ rewrite !in_app_iff. cbn [In]. intros [[?|?]|[?|?]]; try contradiction; discriminate. }
  cbn [ebind].
  replace (((r ++ nm) ++ LPAREN :: ps) ++ [RPAREN])
    with (((r ++ nm) ++ [LPAREN]) ++ ps ++ [RPAREN])
    by (rewrite <- !app_assoc; reflexivity).
  replace (length (r ++ nm) + 1) with (length ((r ++ nm) ++ [LPAREN]))
    by (rewrite (length_app _ [LPAREN]); reflexivity).
  replace (length ((r ++ nm) ++ LPAREN :: ps))
    with (length ((r ++ nm) ++ [LPAREN]) + length ps)
    by (rewrite !length_app; cbn [length]; lia).
  rewrite slice_middle. reflexivity.
Qed.

(** X15: for a declaration [public T name(T1 a1, T2 a2, ...)] followed by
    whatever, with parameters that are each a type and a name and have no
    [)], the converter of the declaration gives the whole stub: the name,
    the parameters rendered in order, and the return type mapped. *)
Theorem convert_declaration (m r nm rest : str) (l : list (str * str)) :
  ~ In SPACE m -> ~ In RPAREN m ->
  ~ In LPAREN r -> ~ In RPAREN r ->
  (forall c, last r = Some c -> is_word uni_alnum c = false) ->
  nm <> [] -> Forall (fun c => is_word uni_alnum c = true) nm ->
  Forall (param_ok uni_alnum) l ->
  Forall (fun p => ~ In RPAREN (fst p)) l ->
  (let* c := Converter_init
               (m ++ py " " ++ r ++ nm ++ py "("
                  ++ join (py ", ") (map raw_param l) ++ py ")" ++ rest) in
   convert uni_alnum c) =
    (let* rettype := type_conversion (strip r) in
     let* params := emap render_param l in
     Ok (py "def " ++ nm ++ py "(" ++ join (py ", ") params ++ py ") -> "
           ++ rettype ++ py ":" ++ [NL] ++ py "    pass")).
Proof.
  intros Hm1 Hm2 Hr1 Hr2 Hlast Hnm Hw Hl Hp.
  rewrite <- (handle_params_list_aux uni_alnum l Hl).
  apply convert_parts; try assumption.
  intros Hin. apply in_join in Hin as [Hin | (x & Hx & Hin)].
  - vm_compute in Hin. repeat (destruct Hin as [Hin|Hin]; [discriminate|]). exact Hin.
  - apply in_map_iff in Hx as ([ty a] & <- & Hx).
    rewrite List.Forall_forall in Hl, Hp.
    destruct (Hl _ Hx) as (_ & _ & _ & Ha & _). specialize (Hp _ Hx).
    cbn [fst snd] in *. unfold raw_param in Hin. cbn [fst snd] in Hin.
    apply in_app_or in Hin as [Hin | Hin]; [contradiction|].
    apply in_app_or in Hin as [Hin | Hin].
    + vm_compute in Hin. repeat (destruct Hin as [Hin|Hin]; [discriminate|]). exact Hin.
    + apply (word_not_in uni_alnum RPAREN a); [reflexivity | exact Ha | exact Hin].
Qed.

End WholeDeclaration.

Lemma convert_declaration_witness :
  (let* c := Converter_init
               (py "public boolean sleepIn(boolean weekday, boolean vacation) {") in
   convert (fun _ => false) c) =
    Ok (py "def sleepIn(weekday: bool, vacation: bool) -> bool:" ++ [NL] ++ py "    pass").
Proof.
  apply (convert_declaration (fun _ => false)
           (py "public") (py "boolean ") (py "sleepIn") (py " {")
           [(py "boolean", py "weekday"); (py "boolean", py "vacation")]).
  - not_in_literal.
  - not_in_literal.
  - not_in_literal.
  - not_in_literal.
  - intros c. vm_compute. intros [= <-]. reflexivity.
  - discriminate.
  - vm_compute. repeat constructor.
  - repeat constructor; cbn [fst snd];
      try discriminate; try (vm_compute; repeat constructor);
      try (intros a b E; comma_places E a).
  - repeat constructor; cbn [fst]; not_in_literal.
Defined.

(** ** More on processing a problem *)

Section ProcessMore.

Variable uni_alnum : N -> bool.
Variable soup : str -> Scraped.

Lemma _process_outcome (self : Problem) (response_text : str) :
  let r := _process uni_alnum soup self response_text in
  url (fst r) = url self /\
  (snd r = Ok tt -> name (fst r) <> None /\ text (fst r) <> None) /\
  (forall e, snd r = Raise e -> text (fst r) = text self).
Proof.
  unfold _process.
  destruct (last (sc_names (soup response_text))) as [n|]; cbn [fst snd].
  - match goal with
    | |- context [match ?X with Ok _ => _ | Raise _ => _ end] => destruct X as [t|e]
    end; cbn [fst snd url name text];
      (split; [reflexivity|]; split;
       [intros H; try discriminate H; split; discriminate
       |intros e' H; try discriminate H; reflexivity]).
  - split; [reflexivity|]. split; [discriminate | reflexivity].
Qed.

(** X16: [_process] never changes [url]; when it succeeds, [name] and
    [text] are set; when it raises, [text] is what it was, so a problem
    whose processing failed is still unprocessed. *)
Theorem _process_sets_text (self : Problem) (response_text : str) :
  url (fst (_process uni_alnum soup self response_text)) = url self /\
  (snd (_process uni_alnum soup self response_text) = Ok tt ->
     name (fst (_process uni_alnum soup self response_text)) <> None /\
     text (fst (_process uni_alnum soup self response_text)) <> None) /\
  (forall e, snd (_process uni_alnum soup self response_text) = Raise e ->
     text (fst (_process uni_alnum soup self response_text)) = text self).
Proof. exact (_process_outcome self response_text). Qed.

(** X17: once [process] or [async_process] has succeeded, calling either
    again changes nothing and requests nothing. *)
Theorem process_settles (self self' : Problem) (w w' : World) :
  process uni_alnum soup self w = (w', (self', Ok tt)) \/
  async_process uni_alnum soup self w = (w', (self', Ok tt)) ->
  process uni_alnum soup self' w' = (w', (self', Ok tt)) /\
  async_process uni_alnum soup self' w' = (w', (self', Ok tt)).
Proof.
  assert (K : text self' <> None ->
    process uni_alnum soup self' w' = (w', (self', Ok tt)) /\
    async_process uni_alnum soup self' w' = (w', (self', Ok tt))).
  { intros H. unfold process, async_process.
    destruct (text self'); [split; reflexivity | congruence]. }
  assert (P : forall r : World * method Problem,
    r = (w', (self', Ok tt)) ->
    r = (match text self with
         | Some _ => (w, (self, Ok tt))
         | None =>
             match get w (url self) with
             | (w1, Raise e) => (w1, (self, Raise e))
             | (w1, Ok restext) => (w1, _process uni_alnum soup self restext)
             end
         end) ->
    text self' <> None).
  { intros r -> E. destruct (text self) eqn:T.
    - injection E as <- <-. congruence.
    - destruct (get w (url self)) as [w1 [restext|e]]; [|discriminate].
      injection E as _ E.
      pose proof (_process_outcome self restext) as (_ & H & _).
      rewrite <- E in H. cbn [fst snd] in H. apply H. reflexivity. }
  intros [H | H]; apply K; eapply P; try reflexivity; rewrite <- H; reflexivity.
Qed.

End ProcessMore.

Lemma _process_sets_text_witness :
  text (fst (_process (fun _ => false) (fun _ => sleepIn_page)
               (Problem_init (py "https://codingbat.com/prob/p187868")) []))
    <> None.
Proof.
  apply (_process_sets_text (fun _ => false) (fun _ => sleepIn_page)
           (Problem_init (py "https://codingbat.com/prob/p187868")) []).
  vm_compute. reflexivity.
Defined.

Lemma process_settles_witness :
  let w' := {| net := fun _ : list N => @Ok (list N) [];
               requested := [py "https://codingbat.com/prob/p187868"] |} in
  let self' := {| url := py "https://codingbat.com/prob/p187868";
                  name := Some (py "sleepIn");
                  text := Some (join [NL] [sleepIn_doc; []; []; sleepIn_stub;
                                           []; []; sleepIn_asserts; []]) |} in
  process (fun _ => false) (fun _ => sleepIn_page) self' w' = (w', (self', Ok tt)) /\
  async_process (fun _ => false) (fun _ => sleepIn_page) self' w' = (w', (self', Ok tt)).
Proof.
  intros w' self'.
  apply (process_settles (fun _ => false) (fun _ => sleepIn_page)
           (Problem_init (py "https://codingbat.com/prob/p187868")) self'
           {| net := fun _ : list N => @Ok (list N) []; requested := [] |} w').
  left. vm_compute. reflexivity.
Defined.

(** ** More on writing a category *)

Section WriteMore.

Variable FS : Type.
Variable fs_open : str -> FS -> FS * option io_exn.
Variable fs_store : str -> str -> FS -> FS * option io_exn.
Variable fs_close : str -> FS -> FS * option io_exn.

Lemma close_after_fails path e fs : snd (close_after fs_close path e fs) <> Ok tt.
Proof. unfold close_after. destruct (fs_close path fs) as [fs' [e'|]]; discriminate. Qed.

Lemma write_file_ok path t fs fs' :
  write_file fs_open fs_store fs_close path t fs = (fs', Ok tt) ->
  exists t', t = Some t' /\ encodable t' = true.
Proof.
  unfold write_file. destruct (fs_open path fs) as [fs1 [e1|]]; [discriminate|].
  destruct t as [t|].
  - destruct (encodable t) eqn:E.
    + destruct (fs_store path t fs1) as [fs2 [e2|]]; [discriminate|].
      intros _. exists t. split; [reflexivity | exact E].
    + intros H. destruct (close_after_fails path UnicodeEncodeError fs1).
      rewrite H. reflexivity.
  - intros H. destruct (close_after_fails path TypeError fs1).
    rewrite H. reflexivity.
Qed.

Lemma write_loop_ok (self : CategoryPage) (probs : list Problem) (fs fs' : FS) :
  write_loop fs_open fs_store fs_close self probs fs = (fs', Ok tt) ->
  Forall (fun p => exists t, text p = Some t /\ encodable t = true) probs.
Proof.
  revert fs. induction probs as [|p probs IH]; intros fs; [constructor|].
  cbn [write_loop].
  destruct (write_file _ _ _ _ _ _) as [fs1 [[]|e1]] eqn:E; [|discriminate].
  intros H. constructor; [|eapply IH, H].
  apply write_file_ok in E. exact E.
Qed.

Lemma write_loop_all (self : CategoryPage) (probs : list Problem) (fs : FS) :
  (forall path fs0, snd (fs_open path fs0) = None) ->
  (forall path t fs0, snd (fs_store path t fs0) = None) ->
  Forall (fun p => exists t, text p = Some t /\ encodable t = true) probs ->
  write_loop fs_open fs_store fs_close self probs fs =
    (fold_left
       (fun fs0 p =>
          fst (fs_store (path_of self p) (fmt (text p))
                 (fst (fs_open (path_of self p) fs0))))
       probs fs,
     Ok tt).
Proof.
  intros Ho Hs H. revert fs. induction H as [|p probs (t & Ht & He) _ IH]; intros fs.
  - reflexivity.
  - cbn [write_loop fold_left]. unfold write_file.
    specialize (Ho (path_of self p) fs).
    destruct (fs_open (path_of self p) fs) as [fs1 o]. cbn in Ho. subst o.
    rewrite Ht, He. cbn [fmt fst].
    specialize (Hs (path_of self p) t fs1).
    destruct (fs_store (path_of self p) t fs1) as [fs2 o]. cbn in Hs. subst o.
    apply IH.
Qed.

(** X18: [write] returns only when the category is processed and every
    problem has a text that the [utf8] codec encodes; on a file system
    where opening and storing never fail this is enough, and the files of
    the problems are opened and stored one after another, in the order of
    the problems. *)
Theorem write_writes_all (self : CategoryPage) (fs : FS) :
  (forall fs', write fs_open fs_store fs_close self fs = (fs', Ok tt) ->
     processed self = true /\
     Forall (fun p => exists t, text p = Some t /\ encodable t = true)
       (problems self)) /\
  ((forall path fs0, snd (fs_open path fs0) = None) ->
   (forall path t fs0, snd (fs_store path t fs0) = None) ->
   processed self = true ->
   Forall (fun p => exists t, text p = Some t /\ encodable t = true)
     (problems self) ->
   write fs_open fs_store fs_close self fs =
     (fold_left
        (fun fs0 p =>
           fst (fs_store (path_of self p) (fmt (text p))
                  (fst (fs_open (path_of self p) fs0))))
        (problems self) fs,
      Ok tt)).
Proof.
  unfold write. split.
  - intros fs'. destruct (processed self); [|discriminate].
    intros H. split; [reflexivity | eapply write_loop_ok, H].
  - intros Ho Hs -> H. apply write_loop_all; assumption.
Qed.

Lemma write_loop_app (self : CategoryPage) (good more : list Problem) (fs : FS) :
  write_loop fs_open fs_store fs_close self (good ++ more) fs =
    match write_loop fs_open fs_store fs_close self good fs with
    | (fs1, Ok _) => write_loop fs_open fs_store fs_close self more fs1
    | (fs1, Raise e) => (fs1, Raise e)
    end.
Proof.
  revert fs. induction good as [|p good IH]; intros fs; [reflexivity|].
  cbn [app write_loop].
  destruct (write_file fs_open fs_store fs_close (path_of self p) (text p) fs)
    as [fs1 [[]|e]]; [apply IH | reflexivity].
Qed.

(** X19: [write] stops at the first problem it cannot write, the problems
    before it being written already and those after it not being opened:
    what [open] raises goes on; once the file is opened, so created or
    emptied, a problem without text raises [TypeError] and a text with a
    surrogate raises [UnicodeEncodeError], after the file is closed. *)
Theorem write_stops_at_failure (self : CategoryPage) (good rest : list Problem)
    (bad : Problem) (fs fs1 : FS) :
  processed self = true ->
  problems self = good ++ bad :: rest ->
  write_loop fs_open fs_store fs_close self good fs = (fs1, Ok tt) ->
  (forall fs2 e,
     write_file fs_open fs_store fs_close (path_of self bad) (text bad) fs1
       = (fs2, Raise e) ->
     write fs_open fs_store fs_close self fs = (fs2, Raise e)) /\
  (forall fs2 e,
     fs_open (path_of self bad) fs1 = (fs2, Some e) ->
     write fs_open fs_store fs_close self fs = (fs2, Raise (raised e))) /\
  (forall fs2 fs3,
     fs_open (path_of self bad) fs1 = (fs2, None) ->
     fs_close (path_of self bad) fs2 = (fs3, None) ->
     (text bad = None ->
        write fs_open fs_store fs_close self fs = (fs3, Raise TypeError)) /\
     (forall t, text bad = Some t -> encodable t = false ->
        write fs_open fs_store fs_close self fs = (fs3, Raise UnicodeEncodeError))).
Proof.
  intros P E L.
  assert (W : forall fs2 e,
    write_file fs_open fs_store fs_close (path_of self bad) (text bad) fs1
      = (fs2, Raise e) ->
    write fs_open fs_store fs_close self fs = (fs2, Raise e)).
  { intros fs2 e H. unfold write. rewrite P, E, write_loop_app, L.
    cbn [write_loop]. rewrite H. reflexivity. }
  split; [exact W|]. split.
  - intros fs2 e H. apply W. unfold write_file. rewrite H. reflexivity.
  - intros fs2 fs3 Ho Hc. split.
    + intros T. apply W. unfold write_file, close_after. rewrite Ho, T, Hc.
      reflexivity.
    + intros t T Hn. apply W. unfold write_file, close_after.
      rewrite Ho, T, Hn, Hc. reflexivity.
Qed.

End WriteMore.

Lemma write_writes_all_witness :
  let p := {| url := py "https://codingbat.com/prob/p187868";
              name := Some (py "sleepIn"); text := Some (py "pass") |} in
  let cat := {| cp_url := py "https://codingbat.com/java/Warmup-1";
                cp_name := py "Warmup-1"; problems := [p]; processed := true |} in
  write plain_open plain_store plain_close cat ∅
    = (<[py "./Warmup-1/sleepIn.py" := py "pass"]>
         (<[py "./Warmup-1/sleepIn.py" := []]> ∅),
       Ok tt).
Proof.
  intros p cat.
  apply (proj2 (write_writes_all _ plain_open plain_store plain_close cat ∅)).
  - reflexivity.
  - reflexivity.
  - reflexivity.
  - repeat constructor. exists (py "pass"). split; reflexivity.
Defined.

Lemma write_stops_at_failure_witness :
  let p := {| url := py "https://codingbat.com/prob/p187868";
              name := Some (py "sleepIn"); text := Some (py "pass") |} in
  let q := Problem_init (py "https://codingbat.com/prob/p181646") in
  let cat := {| cp_url := py "https://codingbat.com/java/Warmup-1";
                cp_name := py "Warmup-1"; problems := [p; q; p]; processed := true |} in
  write plain_open plain_store plain_close cat ∅
    = (<[py "./Warmup-1/None.py" := []]>
         (<[py "./Warmup-1/sleepIn.py" := py "pass"]>
            (<[py "./Warmup-1/sleepIn.py" := []]> ∅)),
       Raise TypeError).
Proof.
  intros p q cat.
  destruct (write_stops_at_failure _ plain_open plain_store plain_close
              cat [p] [p] q ∅
              (<[py "./Warmup-1/sleepIn.py" := py "pass"]>
                 (<[py "./Warmup-1/sleepIn.py" := []]> ∅)))
    as (_ & _ & H).
  - reflexivity.
  - reflexivity.
  - reflexivity.
  - apply (H (<[py "./Warmup-1/None.py" := []]>
               (<[py "./Warmup-1/sleepIn.py" := py "pass"]>
                  (<[py "./Warmup-1/sleepIn.py" := []]> ∅)))
             (<[py "./Warmup-1/None.py" := []]>
               (<[py "./Warmup-1/sleepIn.py" := py "pass"]>
                  (<[py "./Warmup-1/sleepIn.py" := []]> ∅))));
      reflexivity.
Defined.

(** ** The constructor of a category *)

Lemma rmatch_plus_end (p : N -> bool) (nm : str) (g : list str) :
  nm <> [] -> Forall (fun c => p c = true) nm ->
  exists l, rmatch (RSeq (RGroup (RPlus p)) REnd) nm g = (g ++ [nm], []) :: l.
Proof.
  intros Hnm Hw. destruct nm as [|c nm]; [congruence|].
  inversion Hw as [|? ? Hc Hw']; subst.
  rewrite rmatch_group_plus.
  destruct (plus_class_head _ c nm Hc) as (tl & -> & _).
  rewrite (drop_run_all _ _ Hw'). cbn [flat_map rmatch app].
  rewrite consumed_nil. eauto.
Qed.

Lemma rmatch_plus_end_inv (p : N -> bool) (s : str) (g g' : list str) (t : str) :
  In (g', t) (rmatch (RSeq (RGroup (RPlus p)) REnd) s g) ->
  exists w, w <> [] /\ Forall (fun c => p c = true) w /\
            s = w ++ t /\ (t = [] \/ t = [NL]) /\ g' = g ++ [w].
Proof.
  rewrite rmatch_group_plus. intros H.
  apply in_flat_map in H as (t3 & H3 & H).
  destruct (plus_class_inv _ _ _ H3) as (w & Hne & Hw & ->).
  rewrite consumed_app in H. exists w.
  destruct t3 as [|e [|? ?]]; cbn [rmatch] in H.
  - destruct H as [[= <- <-] | []]. auto 10.
  - destruct (N.eqb_spec e NL) as [->|]; [|destruct H].
    destruct H as [[= <- <-] | []]. auto 10.
  - destruct H.
Qed.

Section CategoryFacts.

Variable uni_alnum : N -> bool.

Abbreviation name_char := (fun c : N => is_name_char uni_alnum c = true).

(** What a match of [/([\w\-]+)$] is made of. *)
Lemma rmatch_category_re_inv (s : str) (g' : list str) (t : str) :
  In (g', t) (rmatch (category_re uni_alnum) s []) ->
  exists nm, nm <> [] /\ Forall name_char nm /\
             s = SLASH :: nm ++ t /\ (t = [] \/ t = [NL]) /\ g' = [nm].
Proof.
  unfold category_re. destruct s as [|d s]; [intros []|].
  destruct (N.eqb_spec SLASH d) as [<-|Hd].
  - rewrite rmatch_seq_char_hit. intros H.
    apply rmatch_plus_end_inv in H as (w & H1 & H2 & -> & H4 & ->).
    exists w. auto 10.
  - rewrite rmatch_seq_char_miss by (apply N.eqb_neq, Hd). intros [].
Qed.

Lemma search_category_inv (s : str) (pos : nat) (m : Match) :
  search_from (category_re uni_alnum) s pos = Some m ->
  exists pre nm t,
    nm <> [] /\ Forall name_char nm /\
    s = pre ++ SLASH :: nm ++ t /\ (t = [] \/ t = [NL]) /\ m_groups m = [nm].
Proof.
  revert pos. induction s as [|d s IH]; intros pos.
  - cbn. discriminate.
  - cbn [search_from].
    destruct (rmatch (category_re uni_alnum) (d :: s) []) as [|[g t] l] eqn:E.
    + intros H. destruct (IH _ H) as (pre & nm & t & H1 & H2 & -> & H4 & H5).
      exists (d :: pre), nm, t. auto 10.
    + intros [= <-].
      destruct (rmatch_category_re_inv (d :: s) g t) as (nm & H1 & H2 & H3 & H4 & ->).
      { rewrite E. left. reflexivity. }
      exists [], nm, t. auto 10.
Qed.

Lemma search_category (base nm : str) (pos : nat) :
  nm <> [] -> Forall name_char nm ->
  search_from (category_re uni_alnum) (base ++ SLASH :: nm) pos =
    Some {| m_start := pos + length base; m_text := SLASH :: nm; m_groups := [nm] |}.
Proof.
  intros Hnm Hw. revert pos. induction base as [|c base IH]; intros pos.
  - cbn [app search_from]. unfold category_re. rewrite rmatch_seq_char_hit.
    destruct (rmatch_plus_end (is_name_char uni_alnum) nm [] Hnm Hw) as [l ->].
    rewrite consumed_nil. cbn [length]. rewrite Nat.add_0_r. reflexivity.
  - cbn [app search_from].
    destruct (rmatch (category_re uni_alnum) (c :: base ++ SLASH :: nm) [])
      as [|[g t] l] eqn:E.
    + rewrite IH. cbn [length]. do 2 f_equal. lia.
    + exfalso.
      destruct (rmatch_category_re_inv (c :: base ++ SLASH :: nm) g t)
        as (w & _ & Hw' & E' & Ht & _).
      { rewrite E. left. reflexivity. }
      injection E' as _ E'.
      assert (Hin : In SLASH (w ++ t))
        by (rewrite <- E'; apply in_or_app; right; left; reflexivity).
      apply in_app_or in Hin as [Hin | Hin].
      * rewrite List.Forall_forall in Hw'. apply Hw' in Hin. discriminate.
      * destruct Ht as [-> | ->]; [destruct Hin|].
        destruct Hin as [Hin | []]. discriminate.
Qed.

(** X20: for a URL that ends with a [/] and a name of letters, digits,
    underscores and hyphens, the constructor takes that last segment as the
    name of the category, whatever stands before; the category has no
    problems and is not processed. *)
Theorem CategoryPage_init_name (base nm : str) :
  nm <> [] -> Forall (fun c => is_name_char uni_alnum c = true) nm ->
  CategoryPage_init uni_alnum (base ++ py "/" ++ nm) =
    Ok {| cp_url := base ++ py "/" ++ nm;
          cp_name := nm;
          problems := [];
          processed := false |}.
Proof.
  intros Hnm Hw. unfold CategoryPage_init, re_search.
  change (base ++ py "/" ++ nm) with (base ++ SLASH :: nm).
  rewrite (search_category base nm 0 Hnm Hw). reflexivity.
Qed.


(** X21: a category the constructor returns has a non-empty name of
    letters, digits, underscores and hyphens, which is the end of the URL
    after a [/], a final newline apart. *)
Theorem CategoryPage_init_inv (u : str) (c : CategoryPage) :
  CategoryPage_init uni_alnum u = Ok c ->
  cp_url c = u /\ problems c = [] /\ processed c = false /\
  cp_name c <> [] /\
  Forall (fun d => is_name_char uni_alnum d = true) (cp_name c) /\
  exists pre t, u = pre ++ py "/" ++ cp_name c ++ t /\ (t = [] \/ t = [NL]).
Proof.
  unfold CategoryPage_init, re_search.
  destruct (search_from (category_re uni_alnum) u 0) as [m|] eqn:E; [|discriminate].
  intros [= <-]. cbn [cp_url cp_name problems processed].
  apply search_category_inv in E as (pre & nm & t & H1 & H2 & H3 & H4 & ->).
  cbn [nth]. repeat split; try assumption. exists pre, t. split; [exact H3 | exact H4].
Qed.

(** X22: a URL that is empty or whose last character is neither a newline
    nor a letter, digit, underscore or hyphen (a URL that ends with [/],
    say) makes the constructor raise [TypeError]. *)
Theorem CategoryPage_init_raises (u : str) :
  (forall c, last u = Some c -> c <> NL /\ is_name_char uni_alnum c = false) ->
  CategoryPage_init uni_alnum u = Raise TypeError.
Proof.
  intros H. unfold CategoryPage_init, re_search.
  destruct (search_from (category_re uni_alnum) u 0) as [m|] eqn:E; [|reflexivity].
  exfalso.
  apply search_category_inv in E as (pre & nm & t & H1 & H2 & -> & H4 & _).
  destruct (last nm) as [z|] eqn:Hz; [|apply last_None in Hz; congruence].
  assert (Hzc : is_name_char uni_alnum z = true).
  { apply last_Some_elem_of, list_elem_of_In in Hz.
    rewrite List.Forall_forall in H2. apply H2, Hz. }
  destruct H4 as [-> | ->].
  - destruct (H z) as [_ Hbad]; [|congruence].
    rewrite app_nil_r, last_app_cons, last_cons, Hz. reflexivity.
  - destruct (H NL) as [Hbad _]; [|congruence].
    rewrite last_app_cons, last_cons, last_snoc. reflexivity.
Qed.



End CategoryFacts.

Lemma CategoryPage_init_name_witness :
  CategoryPage_init (fun _ => false) (py "https://codingbat.com/java/Warmup-1") =
    Ok {| cp_url := py "https://codingbat.com/java/Warmup-1";
          cp_name := py "Warmup-1";
          problems := [];
          processed := false |}.
Proof.
  apply (CategoryPage_init_name (fun _ => false)
           (py "https://codingbat.com/java") (py "Warmup-1")).
  - discriminate.
  - vm_compute. repeat constructor.
Defined.

Lemma CategoryPage_init_inv_witness :
  exists pre t,
    py "/java/String-2" = pre ++ py "/" ++ py "String-2" ++ t /\ (t = [] \/ t = [NL]).
Proof.
  apply (CategoryPage_init_inv (fun _ => false) (py "/java/String-2")
           {| cp_url := py "/java/String-2"; cp_name := py "String-2";
              problems := []; processed := false |}).
  vm_compute. reflexivity.
Defined.

Lemma CategoryPage_init_raises_witness :
  CategoryPage_init (fun _ => false) (py "https://codingbat.com/java/") = Raise TypeError.
Proof.
  apply CategoryPage_init_raises.
  intros c. vm_compute. intros [= <-]. split; [discriminate | reflexivity].
Defined.

